(** * Radius-Finance dashboard: weekly aggregation engine (src/dashboard.js)

    A shallow embedding of the date bucketing, aggregation, regional
    reference and income scaling code of [src/dashboard.js].

    Conventions of the model:
    - JavaScript time values are integers of milliseconds since the epoch
      ([Z]); the host time zone is a fixed offset [tzo] in milliseconds
      (local time = UTC time + [tzo]), e.g. [-14400000] for Etc/GMT+4.
      Zones with daylight saving are not modelled, nor the +-8.64e15 ms
      range limit of time values.
    - A date-only ISO string "YYYY-MM-DD" (years 0000..9999) is represented
      by its day number (days since 1970-01-01); string comparison of such
      strings is comparison of day numbers.
    - JavaScript numbers are rationals extended with the infinities and NaN
      (finite overflow and signed zero are not modelled). *)

From Stdlib Require Import ZArith Lia List String Ascii Bool QArith Qround Qabs.
Import ListNotations.
Open Scope Z_scope.

(* ------------------------------------------------------------------ *)
(** ** Dates *)

Module JSDate.

Definition msPerDay : Z := 86400000.

(** [Date.prototype.getDay] (local): 0 = Sunday; 1970-01-01 was a Thursday. *)
Definition getDay (tzo t : Z) : Z := (Z.div (t + tzo) msPerDay + 4) mod 7.

(** [d.setDate(d.getDate() + k)]: move the local date by [k] days at the
    same wall-clock time (a fixed offset makes this [k] whole days). *)
Definition addDays (t k : Z) : Z := t + k * msPerDay.

(** [d.setHours(0,0,0,0)]: local midnight of the same local date. *)
Definition setHours0 (tzo t : Z) : Z := Z.div (t + tzo) msPerDay * msPerDay - tzo.

(** [d.toISOString().slice(0,10)]: the UTC calendar date. *)
Definition isoDate (t : Z) : Z := Z.div t msPerDay.

(** [new Date(s)] for a date-only ISO string: UTC midnight. *)
Definition parseDateOnly (day : Z) : Z := day * msPerDay.

(** [new Date(s + 'T00:00:00')] for a date-only ISO string: local midnight. *)
Definition parseLocalMidnight (tzo day : Z) : Z := day * msPerDay - tzo.

(** Proleptic Gregorian calendar date to day number (for writing dates). *)
Definition days_from_civil (y m d : Z) : Z :=
  let y' := if m <=? 2 then y - 1 else y in
  let era := Z.div y' 400 in
  let yoe := y' - era * 400 in
  let mp := (m + 9) mod 12 in
  let doy := (153 * mp + 2) / 5 + d - 1 in
  let doe := yoe * 365 + yoe / 4 - yoe / 100 + doy in
  era * 146097 + doe - 719468.

End JSDate.
Import JSDate.

Module Weeks.

(** [const diff = (day === 0 ? -6 : 1 - day);] *)
Definition week_diff (day : Z) : Z := if day =? 0 then -6 else 1 - day.

(** Body of [weekStartISO] after [new Date(dateStr)] produced time [t]. *)
Definition weekStart_time (tzo t : Z) : Z :=
  let day := getDay tzo t in
  let diff := week_diff day in
  isoDate (setHours0 tzo (addDays t diff)).

(** [weekStartISO(dateStr)] on a date-only ISO string (parsed as UTC). *)
Definition weekStartISO (tzo ds : Z) : Z := weekStart_time tzo (parseDateOnly ds).

(** The Monday of the local week of a local-midnight time value, as in
    [lastNWeeksEndingAt] and [weeksFromRange]. *)
Definition monday_of (tzo endIso : Z) : Z :=
  let end_ := parseLocalMidnight tzo endIso in
  let day := getDay tzo end_ in
  let diff := week_diff day in
  setHours0 tzo (addDays end_ diff).

(** [for(let i=n-1;i>=0;i--) labels.push(iso(monday - i*7 days))] *)
Fixpoint labels_down (monday : Z) (i : nat) : list Z :=
  match i with
  | O => []
  | S i' => isoDate (addDays monday (- (Z.of_nat i' * 7))) :: labels_down monday i'
  end.

(** [lastNWeeksEndingAt(n, endIso)] *)
Definition lastNWeeksEndingAt (tzo : Z) (n : nat) (endIso : Z) : list Z :=
  labels_down (monday_of tzo endIso) n.

(** The loop of [weeksFromRange]: push the label, stop once more than 520
    labels are held, else step 7 days while [d <= mondayEnd].  Every
    iteration pushes one label, so the break fires before [fuel] (521)
    runs out. *)
Fixpoint wfr_loop (fuel : nat) (d mondayEnd : Z) (labels : list Z) : list Z :=
  match fuel with
  | O => labels
  | S f =>
      if d <=? mondayEnd then
        let labels' := labels ++ [isoDate d] in
        if Nat.ltb 520 (List.length labels') then labels'
        else wfr_loop f (addDays d 7) mondayEnd labels'
      else labels
  end.

(** [weeksFromRange(startIso, endIso)] *)
Definition weeksFromRange (tzo startIso endIso : Z) : list Z :=
  wfr_loop 521 (monday_of tzo startIso) (monday_of tzo endIso) [].

(** The range branch of [drawChartForUser]:
    [if(s > e){ swap } weeks = weeksFromRange(s, e);] *)
Definition weeksInRange (tzo s e : Z) : list Z :=
  if s >? e then weeksFromRange tzo e s else weeksFromRange tzo s e.

End Weeks.
Import Weeks.

(* ------------------------------------------------------------------ *)
(** ** JavaScript numbers and exceptions *)

Module JSNum.

Inductive num : Type :=
| Fin (q : Q)
| PInf
| NInf
| NaN.

(** Exceptions the code can raise: built-in errors, and user-defined error
    classes by name. *)
Inductive exn : Type :=
| TypeError
| RangeError
| UserError (name : string).

Definition isNaN (x : num) : bool := match x with NaN => true | _ => false end.

(** [Number.isFinite] *)
Definition isFinite (x : num) : bool := match x with Fin _ => true | _ => false end.

(** ToBoolean of a number: false for 0 and NaN. *)
Definition truthy (x : num) : bool :=
  match x with
  | Fin q => negb (Qeq_bool q 0)
  | PInf | NInf => true
  | NaN => false
  end.

(** [x > 0] *)
Definition gt0 (x : num) : bool :=
  match x with
  | Fin q => negb (Qle_bool q 0)
  | PInf => true
  | _ => false
  end.

(** [a || b] on numbers. *)
Definition jsor (a b : num) : num := if truthy a then a else b.

(** [(m.get(k) || 0)] *)
Definition or0 (x : option num) : num :=
  match x with Some v => jsor v (Fin 0) | None => Fin 0 end.

Definition add (a b : num) : num :=
  match a, b with
  | NaN, _ | _, NaN => NaN
  | PInf, NInf | NInf, PInf => NaN
  | PInf, _ | _, PInf => PInf
  | NInf, _ | _, NInf => NInf
  | Fin x, Fin y => Fin (x + y)
  end.

(** Sign of a number: 1, -1 or 0. *)
Definition sgn (x : num) : Z :=
  match x with
  | Fin q => if Qeq_bool q 0 then 0 else if Qle_bool q 0 then -1 else 1
  | PInf => 1
  | NInf => -1
  | NaN => 0
  end.

Definition inf_of_sign (s : Z) : num :=
  if s >? 0 then PInf else if s <? 0 then NInf else NaN.

Definition mul (a b : num) : num :=
  match a, b with
  | NaN, _ | _, NaN => NaN
  | Fin x, Fin y => Fin (x * y)
  | _, _ => inf_of_sign (sgn a * sgn b)
  end.

Definition div (a b : num) : num :=
  match a, b with
  | NaN, _ | _, NaN => NaN
  | Fin x, Fin y => if Qeq_bool y 0 then inf_of_sign (sgn a) else Fin (x / y)
  | Fin _, _ => Fin 0
  | _, Fin y => inf_of_sign (sgn a * (if Qeq_bool y 0 then 1 else sgn b))
  | _, _ => NaN
  end.

(** Rounding to the nearest integer, halves away from zero (the rule of
    [toFixed], which rounds the magnitude). *)
Definition round_half_away (x : Q) : Z :=
  if Qle_bool 0 x then Qfloor (x + (1 # 2)) else - Qfloor (- x + (1 # 2)).

(** [Number(x.toFixed(2))]; for magnitudes of at least 1e21 [toFixed]
    returns [String(x)] unrounded.  The result is in lowest terms. *)
Definition round2 (x : num) : num :=
  match x with
  | Fin q =>
      if Qle_bool (inject_Z (10 ^ 21)) (Qabs q) then Fin (Qred q)
      else Fin (Qred (round_half_away (q * 100) # 100))
  | _ => x
  end.

End JSNum.
Import JSNum.

(* ------------------------------------------------------------------ *)
(** ** JavaScript [Map]: insertion-ordered association lists *)

Module JSMap.
Section Map.
Context {K V : Type} (keq : K -> K -> bool).

Definition jsmap := list (K * V).

(** [m.get(k)] *)
Fixpoint get (k : K) (m : jsmap) : option V :=
  match m with
  | [] => None
  | (k', v) :: m' => if keq k k' then Some v else get k m'
  end.

(** [m.has(k)] *)
Definition has (k : K) (m : jsmap) : bool :=
  match get k m with Some _ => true | None => false end.

(** [m.set(k, v)]: overwrite in place, or append a new entry. *)
Fixpoint set (k : K) (v : V) (m : jsmap) : jsmap :=
  match m with
  | [] => [(k, v)]
  | (k', v') :: m' => if keq k k' then (k', v) :: m' else (k', v') :: set k v m'
  end.

End Map.
End JSMap.

(** Keys that may be [undefined] (a missing CSV field). *)
Definition okey := option string.

Definition okey_eqb (a b : okey) : bool :=
  match a, b with
  | Some x, Some y => String.eqb x y
  | None, None => true
  | _, _ => false
  end.

(** [Map(week -> sum)], [Map(userId -> Map(week -> sum))] and
    [Map(state -> Map(userId -> Map(week -> sum)))]. *)
Definition week_map : Type := list (Z * num).
Definition user_map : Type := list (okey * week_map).
Definition state_map : Type := list (okey * user_map).

(* ------------------------------------------------------------------ *)
(** ** Aggregation engine *)

(** A parsed dataset row (the header-keyed object built by [parseCSV]);
    a missing field is [undefined]. *)
Record row : Type := mkRow {
  id : option string;
  location : option string;
  purchase_date : option string;
  purchase_amount : option string;
  purchase_type : option string
}.

Module Aggregation.
Section Aggregation.

(** The built-in [parseFloat] and [new Date(s)] (time value, [None] for an
    Invalid Date), and the host time-zone offset. *)
Variable parseFloat : option string -> num.
Variable parseDate : option string -> option Z.
Variable tzo : Z.

Definition wget (w : Z) (m : week_map) : option num := JSMap.get Z.eqb w m.
Definition wset (w : Z) (v : num) (m : week_map) : week_map := JSMap.set Z.eqb w v m.

(** [weekStartISO(date)]; an Invalid Date makes [toISOString] throw. *)
Definition weekStartISO_str (date : option string) : exn + Z :=
  match parseDate date with
  | None => inl RangeError
  | Some t => inr (weekStart_time tzo t)
  end.

(** The per-row body shared by [computeAggregates] (lines 69-84) and the
    filtered loop of [drawChartForUser] (lines 298-311), after [amt] has been
    checked not to be NaN:
    [userMap.set(week, ...)] for the target user, then the nested per-state,
    per-user accumulation. *)
Definition agg_row (userId : okey) (r : row) (amt : num) (week : Z)
    (userMap : week_map) (suw : state_map) : week_map * state_map :=
  let userMap' :=
    if okey_eqb (id r) userId
    then wset week (add (or0 (wget week userMap)) amt) userMap
    else userMap in
  let loc := location r in
  let suw1 := if JSMap.has okey_eqb loc suw then suw
              else JSMap.set okey_eqb loc [] suw in
  let userMapInState :=
    match JSMap.get okey_eqb loc suw1 with Some m => m | None => [] end in
  let uis1 := if JSMap.has okey_eqb (id r) userMapInState then userMapInState
              else JSMap.set okey_eqb (id r) [] userMapInState in
  let weekMap := match JSMap.get okey_eqb (id r) uis1 with Some m => m | None => [] end in
  let weekMap' := wset week (add (or0 (wget week weekMap)) amt) weekMap in
  (* [weekMap] is the object stored in [userMapInState], itself stored in
     [stateUserWeek]: the update is written back through both maps *)
  let uis2 := JSMap.set okey_eqb (id r) weekMap' uis1 in
  (userMap', JSMap.set okey_eqb loc uis2 suw1).

(** One iteration: [const amt = parseFloat(r.purchase_amount);
    if(Number.isNaN(amt)) continue; const week = weekStartISO(date); ...] *)
Definition agg_step (userId : okey) (r : row) (acc : week_map * state_map)
    : exn + (week_map * state_map) :=
  let amt := parseFloat (purchase_amount r) in
  if isNaN amt then inr acc
  else match weekStartISO_str (purchase_date r) with
       | inl e => inl e
       | inr week => inr (agg_row userId r amt week (fst acc) (snd acc))
       end.

Fixpoint agg_loop (userId : okey) (rows : list row) (acc : week_map * state_map)
    : exn + (week_map * state_map) :=
  match rows with
  | [] => inr acc
  | r :: rs =>
      match agg_step userId r acc with
      | inl e => inl e
      | inr acc' => agg_loop userId rs acc'
      end
  end.

(** [computeAggregates(rows, userId)] *)
Definition computeAggregates (rows : list row) (userId : okey)
    : exn + (week_map * state_map) :=
  agg_loop userId rows ([], []).

(** [typesSet.has(r.purchase_type)] for [new Set(selectedTypes)]. *)
Definition typesSet_has (types : list string) (t : option string) : bool :=
  match t with Some s => existsb (String.eqb s) types | None => false end.

Fixpoint agg_sel_loop (types : list string) (userId : okey) (rows : list row)
    (acc : week_map * state_map) : exn + (week_map * state_map) :=
  match rows with
  | [] => inr acc
  | r :: rs =>
      if negb (typesSet_has types (purchase_type r)) then agg_sel_loop types userId rs acc
      else match agg_step userId r acc with
           | inl e => inl e
           | inr acc' => agg_sel_loop types userId rs acc'
           end
  end.

(** The accumulation of [drawChartForUser] over the selected purchase types
    (lines 293-312), with [id === String(userId)]. *)
Definition aggregateSelected (rows : list row) (types : list string) (userId : string)
    : exn + (week_map * state_map) :=
  agg_sel_loop types (Some userId) rows ([], []).

(** A row whose amount parses to a number. *)
Definition valid_amount (r : row) : bool := negb (isNaN (parseFloat (purchase_amount r))).

End Aggregation.

(** The inner loop of [computeStateAverageForWeeks] for week [w]:
    [sum += weekMap.get(w) || 0; count++] over the entries in order. *)
Fixpoint sum_count (w : Z) (entries : user_map) (sum : num) (count : nat) : num * nat :=
  match entries with
  | [] => (sum, count)
  | (_, weekMap) :: es =>
      sum_count w es (add sum (or0 (JSMap.get Z.eqb w weekMap))) (S count)
  end.

(** [stateUserWeekMap.get(state) || new Map()] *)
Definition cohort_users (suw : state_map) (state : okey) : user_map :=
  match JSMap.get okey_eqb state suw with Some m => m | None => [] end.

(** [computeStateAverageForWeeks(stateUserWeekMap, state, weeks)] *)
Definition computeStateAverageForWeeks (suw : state_map) (state : okey) (weeks : list Z)
    : list num :=
  let userMap := cohort_users suw state in
  map (fun w =>
         let '(sum, count) := sum_count w userMap (Fin 0) O in
         let avg := if Nat.eqb count 0 then Fin 0 else div sum (Fin (inject_Z (Z.of_nat count))) in
         round2 avg) weeks.

(** [mapUserToWeeks(userMap, weeks)] *)
Definition mapUserToWeeks (userMap : week_map) (weeks : list Z) : list num :=
  map (fun w => round2 (or0 (JSMap.get Z.eqb w userMap))) weeks.

End Aggregation.

(* ------------------------------------------------------------------ *)
(** ** CSV parsing *)

Module CSV.
Open Scope string_scope.

(** [s.split(c)] for a one-character separator. *)
Fixpoint split_on (c : ascii) (s : string) : list string :=
  match s with
  | EmptyString => [EmptyString]
  | String x s' =>
      if Ascii.eqb x c then EmptyString :: split_on c s'
      else match split_on c s' with
           | [] => [String x EmptyString]
           | h :: t => String x h :: t
           end
  end.

Definition cr : ascii := ascii_of_nat 13.
Definition lf : ascii := ascii_of_nat 10.

(** Drop one final carriage return. *)
Fixpoint drop_final_cr (s : string) : string :=
  match s with
  | EmptyString => EmptyString
  | String x EmptyString => if Ascii.eqb x cr then EmptyString else s
  | String x s' => String x (drop_final_cr s')
  end.

(** [text.split(/\r?\n/)]: split at line feeds; a carriage return right
    before a line feed belongs to the separator. *)
Definition split_lines (text : string) : list string :=
  let pieces := split_on lf text in
  let fix go (ps : list string) : list string :=
    match ps with
    | [] => []
    | [p] => [p]
    | p :: ps' => drop_final_cr p :: go ps'
    end in
  go pieces.

(** [.filter(Boolean)] on strings. *)
Definition nonempty (s : string) : bool :=
  match s with EmptyString => false | _ => true end.

(** White space stripped by [String.prototype.trim] (ASCII part). *)
Definition is_ws (a : ascii) : bool :=
  let n := nat_of_ascii a in
  Nat.eqb n 32 || (Nat.leb 9 n && Nat.leb n 13).

Fixpoint trim_start (s : string) : string :=
  match s with
  | String a s' => if is_ws a then trim_start s' else s
  | EmptyString => EmptyString
  end.

Definition rev_string (s : string) : string :=
  string_of_list_ascii (rev (list_ascii_of_string s)).

(** [h.trim()] *)
Definition trim (s : string) : string := rev_string (trim_start (rev_string (trim_start s))).

(** A parsed row object: header name to field ([undefined] past the end). *)
Definition obj := list (string * option string).

(** [for(let i=0;i<header.length;i++) obj[header[i]] = parts[i];] *)
Definition mk_obj (header parts : list string) : obj :=
  let fix go (i : nat) (hs : list string) (o : obj) : obj :=
    match hs with
    | [] => o
    | h :: hs' => go (S i) hs' (JSMap.set String.eqb h (nth_error parts i) o)
    end in
  go O header [].

(** [parseCSV(text)]: with no non-empty line, [lines.shift()] is [undefined]
    and [.split] on it throws a TypeError. *)
Definition parseCSV (text : string) : exn + (list string * list obj) :=
  let lines := filter nonempty (split_lines text) in
  match lines with
  | [] => inl TypeError
  | h :: rest =>
      let header := map trim (split_on "," h) in
      inr (header, map (fun l => mk_obj header (split_on "," l)) rest)
  end.

End CSV.

(* ------------------------------------------------------------------ *)
(** ** Regional reference lookup *)

Module Regional.
Open Scope string_scope.

Inductive region : Type := United_States | Northeast | Midwest | South | West.

(** An entry of [parseFilteredExpenditures]: weekly mean per region. *)
Record entry : Type := mkEntry {
  us_mean : num; northeast_mean : num; midwest_mean : num;
  south_mean : num; west_mean : num
}.

(** [entry[region]] *)
Definition entry_get (e : entry) (r : region) : num :=
  match r with
  | United_States => us_mean e
  | Northeast => northeast_mean e
  | Midwest => midwest_mean e
  | South => south_mean e
  | West => west_mean e
  end.

Definition lower (a : ascii) : ascii :=
  let n := nat_of_ascii a in
  if Nat.leb 65 n && Nat.leb n 90 then ascii_of_nat (n + 32) else a.

Definition is_lower_alnum (a : ascii) : bool :=
  let n := nat_of_ascii a in
  (Nat.leb 97 n && Nat.leb n 122) || (Nat.leb 48 n && Nat.leb n 57).

(** [norm = s => String(s||'').toLowerCase().replace(/[^a-z0-9]+/g,'')] *)
Definition norm (s : string) : string :=
  string_of_list_ascii (filter is_lower_alnum (map lower (list_ascii_of_string s))).

(** [s.includes(t)] *)
Fixpoint includes (s t : string) : bool :=
  String.prefix t s ||
  match s with
  | EmptyString => false
  | String _ s' => includes s' t
  end.

(** The inner loop over [feMap.keys()]: first key [k] with
    [k === target || k.includes(target) || target.includes(k)]. *)
Fixpoint find_key (target : string) (keys : list string) : option string :=
  match keys with
  | [] => None
  | key :: ks =>
      let k := norm key in
      if String.eqb k target || includes k target || includes target k
      then Some key else find_key target ks
  end.

(** [matchCategory]: the matched key for one selected type. *)
Definition matchCategory (t : string) (feMap : list (string * entry)) : option string :=
  find_key (norm t) (map fst feMap).

(** The loop over the selected types (lines 325-346): total weekly value,
    matched count and matched keys. *)
Fixpoint ref_loop (feMap : list (string * entry)) (reg : region) (types : list string)
    (total : num) (count : nat) (keys : list string) : num * nat * list string :=
  match types with
  | [] => (total, count, keys)
  | t :: ts =>
      match matchCategory t feMap with
      | None | Some EmptyString => ref_loop feMap reg ts total count keys
      | Some matchedKey =>
          match JSMap.get String.eqb matchedKey feMap with
          | None => ref_loop feMap reg ts total count keys
          | Some e =>
              let weeklyVal := jsor (entry_get e reg) (jsor (us_mean e) (Fin 0)) in
              if isNaN weeklyVal then ref_loop feMap reg ts total count keys
              else ref_loop feMap reg ts (add total weeklyVal) (S count) (keys ++ [matchedKey])
          end
      end
  end.

(** The regional reference value before income adjustment:
    [Number(totalWeekly.toFixed(2))] when [matchedCount > 0], else no line. *)
Definition regionalReference (feMap : list (string * entry)) (reg : region)
    (selectedTypes : list string) : option (num * list string) :=
  let '(total, count, keys) := ref_loop feMap reg selectedTypes (Fin 0) O [] in
  if Nat.ltb 0 count then Some (round2 total, keys) else None.

End Regional.

(* ------------------------------------------------------------------ *)
(** ** Income normalisation (lines 350-360) *)

Module Income.

(** [regionAvgInc && Number.isFinite(userWeeklyInc) && userWeeklyInc > 0
    && regionAvgInc > 0]; [regionAvgInc] is [null] ([None]) or a number. *)
Definition adjust_branch (regionAvgInc : option num) (userWeeklyInc : num) : bool :=
  match regionAvgInc with
  | None => false
  | Some ra => truthy ra && isFinite userWeeklyInc && gt0 userWeeklyInc && gt0 ra
  end.

(** The factor applied to the reference value: [userWeeklyInc / regionAvgInc]
    in the branch, none (1) otherwise. *)
Definition incomeScaleFactor (regionAvgInc : option num) (userWeeklyInc : num) : num :=
  match regionAvgInc with
  | Some ra => if adjust_branch regionAvgInc userWeeklyInc then div userWeeklyInc ra else Fin 1
  | None => Fin 1
  end.

(** [adjustedTotal] *)
Definition adjustedTotal (roundedTotal : num) (regionAvgInc : option num) (userWeeklyInc : num)
    : num :=
  match regionAvgInc with
  | Some ra =>
      if adjust_branch regionAvgInc userWeeklyInc
      then round2 (mul roundedTotal (div userWeeklyInc ra))
      else roundedTotal
  | None => roundedTotal
  end.

End Income.

(* ------------------------------------------------------------------ *)
(** ** Dataset date range, chart weeks and purchase types *)

Module Dataset.
Open Scope string_scope.

(** [!ds] for a string field: [undefined] or the empty string. *)
Definition falsy_str (s : option string) : bool :=
  match s with None | Some EmptyString => true | Some _ => false end.

Section DateRange.
(** [Date.parse(ds)] (time value, [None] for NaN). *)
Variable parseDate : option string -> option Z.

(** The loop of [getRowsDateRange]: rows without a date or with an
    unparsable one are skipped; [min]/[max] keep the extreme UTC dates. *)
Fixpoint range_loop (rows : list row) (mn mx : option Z) : option Z * option Z :=
  match rows with
  | [] => (mn, mx)
  | r :: rs =>
      let ds := purchase_date r in
      if falsy_str ds then range_loop rs mn mx else
      match parseDate ds with
      | None => range_loop rs mn mx
      | Some t =>
          let iso := isoDate t in
          let mn' := match mn with
                     | None => Some iso
                     | Some m => if (iso <? m)%Z then Some iso else mn
                     end in
          let mx' := match mx with
                     | None => Some iso
                     | Some m => if (iso >? m)%Z then Some iso else mx
                     end in
          range_loop rs mn' mx'
      end
  end.

(** [getRowsDateRange(rows)]: [{min, max}], [null] as [None]. *)
Definition getRowsDateRange (rows : list row) : option Z * option Z :=
  range_loop rows None None.

(** The UTC date a row contributes to the range, if any. *)
Definition row_day (r : row) : option Z :=
  if falsy_str (purchase_date r) then None
  else option_map isoDate (parseDate (purchase_date r)).

End DateRange.

(** The weeks of the chart in [drawChartForUser] (lines 225-241): with both
    date inputs set, [weeksFromRange] on them (swapped if reversed); if that
    is unset or empty, the 6 weeks ending at the dataset's last date, else
    at today's UTC date ([lastNWeeks(6)]). *)
Definition chartWeeks (tzo : Z) (range : option (Z * Z)) (datasetMax : option Z) (today : Z)
    : list Z :=
  let weeks := match range with Some (s, e) => weeksInRange tzo s e | None => [] end in
  match weeks with
  | [] =>
      match datasetMax with
      | Some m => lastNWeeksEndingAt tzo 6 m
      | None => lastNWeeksEndingAt tzo 6 today
      end
  | _ => weeks
  end.

(** The Monday on or before a day number (1970-01-01 was a Thursday). *)
Definition monday_day (d : Z) : Z := (d - (d + 3) mod 7)%Z.

(** [rows.map(r => r.purchase_type).filter(Boolean)] *)
Fixpoint truthy_strings (l : list (option string)) : list string :=
  match l with
  | [] => []
  | Some (String a s) :: l' => String a s :: truthy_strings l'
  | _ :: l' => truthy_strings l'
  end.

(** [Array.from(new Set(xs))]: each value once, at its first position. *)
Fixpoint set_from (acc : list string) (xs : list string) : list string :=
  match xs with
  | [] => acc
  | x :: xs' => set_from (if existsb (String.eqb x) acc then acc else acc ++ [x]) xs'
  end.

(** [purchaseTypes] of [drawChartForUser] (line 182). *)
Definition purchaseTypes (rows : list row) : list string :=
  set_from [] (truthy_strings (map purchase_type rows)).

End Dataset.

(* ------------------------------------------------------------------ *)
(** ** States to regions *)

Module Regions.
Import Regional.
Open Scope string_scope.

Definition region_eqb (a b : region) : bool :=
  match a, b with
  | United_States, United_States | Northeast, Northeast | Midwest, Midwest
  | South, South | West, West => true
  | _, _ => false
  end.

(** A truthy value of [mapping[s]]: one of the region names, or a member
    that the object literal inherits from [Object.prototype]. *)
Inductive region_result : Type :=
| RegionName (r : region)
| ProtoMember (name : string).

(** [reg !== region]: region names compare as strings, inherited members
    by identity (one object per name). *)
Definition region_result_eqb (a b : region_result) : bool :=
  match a, b with
  | RegionName x, RegionName y => region_eqb x y
  | ProtoMember x, ProtoMember y => String.eqb x y
  | _, _ => false
  end.

(** The own properties of [mapping] in [stateToRegion]. *)
Definition region_mapping : list (string * region) :=
  [("Connecticut", Northeast); ("Maine", Northeast); ("Massachusetts", Northeast);
   ("New Hampshire", Northeast); ("Rhode Island", Northeast); ("Vermont", Northeast);
   ("New Jersey", Northeast); ("New York", Northeast); ("Pennsylvania", Northeast);
   ("Illinois", Midwest); ("Indiana", Midwest); ("Michigan", Midwest); ("Ohio", Midwest);
   ("Wisconsin", Midwest); ("Iowa", Midwest); ("Kansas", Midwest); ("Minnesota", Midwest);
   ("Missouri", Midwest); ("Nebraska", Midwest); ("North Dakota", Midwest);
   ("South Dakota", Midwest);
   ("Delaware", South); ("Florida", South); ("Georgia", South); ("Maryland", South);
   ("North Carolina", South); ("South Carolina", South); ("Virginia", South);
   ("West Virginia", South); ("Alabama", South); ("Kentucky", South);
   ("Mississippi", South); ("Tennessee", South); ("Arkansas", South);
   ("Louisiana", South); ("Oklahoma", South); ("Texas", South);
   ("District of Columbia", South);
   ("Arizona", West); ("Colorado", West); ("Idaho", West); ("Montana", West);
   ("Nevada", West); ("New Mexico", West); ("Utah", West); ("Wyoming", West);
   ("Alaska", West); ("California", West); ("Hawaii", West); ("Oregon", West);
   ("Washington", West)].

(** The properties of [Object.prototype], all truthy (functions, and the
    prototype itself for [__proto__]). *)
Definition object_prototype_members : list string :=
  ["constructor"; "__defineGetter__"; "__defineSetter__"; "hasOwnProperty";
   "__lookupGetter__"; "__lookupSetter__"; "isPrototypeOf"; "propertyIsEnumerable";
   "toString"; "valueOf"; "__proto__"; "toLocaleString"].

(** [mapping[s]]: own property, else inherited property, else [undefined]. *)
Definition mapping_lookup (s : string) : option region_result :=
  match JSMap.get String.eqb s region_mapping with
  | Some r => Some (RegionName r)
  | None =>
      if existsb (String.eqb s) object_prototype_members then Some (ProtoMember s) else None
  end.

(** [stateToRegion(state)] for a string or [undefined] argument. *)
Definition stateToRegion (state : option string) : region_result :=
  match state with
  | None | Some EmptyString => RegionName United_States
  | Some st =>
      match mapping_lookup (CSV.trim st) with
      | Some v => v
      | None => RegionName United_States
      end
  end.

End Regions.

(* ------------------------------------------------------------------ *)
(** ** Regional average income *)

Module RegionIncome.
Import Regions.
Open Scope string_scope.

(** [r.name] on a parsed row object. *)
Definition field (o : CSV.obj) (k : string) : option string :=
  match JSMap.get String.eqb k o with Some v => v | None => None end.

(** [String(r.id)] *)
Definition id_string (o : CSV.obj) : string :=
  match field o "id" with Some s => s | None => "undefined" end.

(** [x === 0] *)
Definition is_zero (x : num) : bool :=
  match x with Fin q => Qeq_bool q 0 | _ => false end.

Section RegionIncome.
(** The built-in [Number] on a field. *)
Variable toNumber : option string -> num.

(** The loop of [computeRegionAverageWeeklyIncome]: [seen], [sum], [count]. *)
Fixpoint rai_loop (region : region_result) (rows : list CSV.obj) (seen : list string)
    (sum : num) (count : nat) : num * nat :=
  match rows with
  | [] => (sum, count)
  | r :: rs =>
      let i := id_string r in
      if existsb (String.eqb i) seen then rai_loop region rs seen sum count else
      let seen' := i :: seen in
      let reg := stateToRegion (field r "location") in
      if negb (region_result_eqb reg region) then rai_loop region rs seen' sum count else
      let inc0 := toNumber (field r "income_weekly") in
      let inc :=
        if isNaN inc0 || is_zero inc0 then
          let y := toNumber (field r "income_yearly") in
          if negb (isNaN y) && negb (is_zero y) then div y (Fin 52) else inc0
        else inc0 in
      if isNaN inc || is_zero inc then rai_loop region rs seen' sum count
      else rai_loop region rs seen' (add sum inc) (S count)
  end.

(** [computeRegionAverageWeeklyIncome(rows, region)]; [null] as [None]. *)
Definition computeRegionAverageWeeklyIncome (rows : list CSV.obj) (region : region_result)
    : option num :=
  let '(sum, count) := rai_loop region rows [] (Fin 0) O in
  if Nat.eqb count 0 then None else Some (div sum (Fin (inject_Z (Z.of_nat count)))).

End RegionIncome.
End RegionIncome.

(* ------------------------------------------------------------------ *)
(** ** The regional expenditure table *)

Module Expenditures.
Import Regional.
Open Scope string_scope.

(** The header column read for each region. *)
Definition col_name (r : region) : string :=
  match r with
  | United_States => "United States Mean (Weekly $)"
  | Northeast => "Northeast Mean (Weekly $)"
  | Midwest => "Midwest Mean (Weekly $)"
  | South => "South Mean (Weekly $)"
  | West => "West Mean (Weekly $)"
  end.

(** [header.forEach((h,i) => { idx[h] = i; })]: the last column of a name
    wins.  (An assignment to [idx.__proto__] is ignored by the engine; it is
    kept here, and never read for the five column names.) *)
Definition header_index (header : list string) : list (string * nat) :=
  let fix go (i : nat) (hs : list string) (idx : list (string * nat)) :=
    match hs with
    | [] => idx
    | h :: hs' => go (S i) hs' (JSMap.set String.eqb h i idx)
    end in
  go O header [].

Section Expenditures.
Variable parseFloat : option string -> num.

(** [parseFloat(parts[idx[col]] || '0') || 0] *)
Definition cell (idx : list (string * nat)) (parts : list string) (r : region) : num :=
  let v := match JSMap.get String.eqb (col_name r) idx with
           | Some i => nth_error parts i
           | None => None
           end in
  let s := match v with Some (String a s) => String a s | _ => "0" end in
  jsor (parseFloat (Some s)) (Fin 0).

(** The loop over the data lines of [parseFilteredExpenditures]. *)
Fixpoint fe_loop (idx : list (string * nat)) (lines : list string)
    (m : list (string * entry)) : list (string * entry) :=
  match lines with
  | [] => m
  | l :: ls =>
      let parts := CSV.split_on "," l in
      let item := match parts with p :: _ => p | [] => EmptyString end in
      if negb (CSV.nonempty item) then fe_loop idx ls m else
      let e := mkEntry (cell idx parts United_States) (cell idx parts Northeast)
                       (cell idx parts Midwest) (cell idx parts South) (cell idx parts West) in
      fe_loop idx ls (JSMap.set String.eqb (CSV.trim item) e m)
  end.

(** [parseFilteredExpenditures(text)] *)
Definition parseFilteredExpenditures (text : string) : list (string * entry) :=
  match filter CSV.nonempty (CSV.split_lines text) with
  | [] => []
  | h :: rest =>
      let header := map CSV.trim (CSV.split_on "," h) in
      fe_loop (header_index header) rest []
  end.

End Expenditures.
End Expenditures.

(** [lines.join(sep)] *)
Fixpoint join (sep : string) (ls : list string) : string :=
  match ls with
  | [] => EmptyString
  | [l] => l
  | l :: ls' => (l ++ sep ++ join sep ls')%string
  end.

(* ------------------------------------------------------------------ *)
(** ** Concrete built-ins for evaluation on sample data *)

Module Builtins.
Open Scope string_scope.

Definition digit_val (a : ascii) : option Z :=
  let n := nat_of_ascii a in
  if Nat.leb 48 n && Nat.leb n 57 then Some (Z.of_nat n - 48)%Z else None.

(** Leading decimal digits: value, number of digits, rest. *)
Fixpoint digits (l : list ascii) (acc : Z) (k : nat) : Z * nat * list ascii :=
  match l with
  | a :: l' =>
      match digit_val a with
      | Some d => digits l' (acc * 10 + d)%Z (S k)
      | None => (acc, k, l)
      end
  | [] => (acc, k, l)
  end.

(** [parseFloat] on plain decimal text ([-]digits[.digits] prefix); other
    text gives NaN (exponents and "Infinity" are not covered). *)
Definition parseFloat_dec (s : option string) : num :=
  match s with
  | None => NaN
  | Some s =>
      let l := list_ascii_of_string (CSV.trim_start s) in
      let '(neg, l1) := match l with
                        | "-"%char :: l' => (true, l')
                        | "+"%char :: l' => (false, l')
                        | _ => (false, l)
                        end in
      let '(ip, ni, l2) := digits l1 0 O in
      let '(fp, nf) := match l2 with
                       | "."%char :: l3 => let '(f, n, _) := digits l3 0 O in (f, n)
                       | _ => (0%Z, O)
                       end in
      if Nat.eqb (ni + nf) 0 then NaN
      else let q := Qred (Qmake ip 1 + Qmake fp (Z.to_pos (10 ^ Z.of_nat nf)))%Q in
           Fin (if neg then Qopp q else q)
  end.

(** [new Date(s)] on a date-only ISO string "YYYY-MM-DD": UTC midnight;
    other text gives an Invalid Date. *)
Definition parseDate_iso (s : option string) : option Z :=
  match s with
  | Some s =>
      match list_ascii_of_string s with
      | [y1; y2; y3; y4; s1; m1; m2; s2; d1; d2] =>
          if negb (Ascii.eqb s1 "-"%char && Ascii.eqb s2 "-"%char) then None else
          match digits [y1; y2; y3; y4] 0 O, digits [m1; m2] 0 O, digits [d1; d2] 0 O with
          | (y, 4%nat, []), (m, 2%nat, []), (d, 2%nat, []) =>
              if ((1 <=? m) && (m <=? 12) && (1 <=? d) && (d <=? 31))%Z
              then Some (parseDateOnly (days_from_civil y m d))
              else None
          | _, _, _ => None
          end
      | _ => None
      end
  | None => None
  end.

End Builtins.

(* ------------------------------------------------------------------ *)
(** ** Sample inputs *)

Module Samples.
Open Scope string_scope.

(** Fixed-offset zones: Etc/GMT+4 (UTC-4) and Etc/GMT-2 (UTC+2). *)
Definition tz_west : Z := -14400000.
Definition tz_east : Z := 7200000.

Definition day_2000_01_03 : Z := days_from_civil 2000 1 3.
Definition day_2020_01_06 : Z := days_from_civil 2020 1 6.
Definition day_2025_05_19 : Z := days_from_civil 2025 5 19.
Definition day_2025_05_26 : Z := days_from_civil 2025 5 26.
Definition day_2025_06_02 : Z := days_from_civil 2025 6 2.
Definition day_2025_06_23 : Z := days_from_civil 2025 6 23.
Definition day_2025_06_30 : Z := days_from_civil 2025 6 30.

Definition row_tx : row := mkRow (Some "1") (Some "Texas") (Some "2025-06-02") (Some "50") (Some "Food").
Definition row_oh : row := mkRow (Some "1") (Some "Ohio") (Some "2025-06-03") (Some "10.25") (Some "Food").
Definition row_bad : row := mkRow (Some "2") (Some "Texas") (Some "2025-06-03") (Some "n/a") (Some "Food").
Definition sample_rows : list row := [row_tx; row_oh; row_bad].

Definition sample_run : exn + (week_map * state_map) :=
  Aggregation.computeAggregates Builtins.parseFloat_dec Builtins.parseDate_iso 0
    sample_rows (Some "1").

Definition sample_state_map : state_map :=
  match sample_run with inr (_, suw) => suw | inl _ => [] end.

Definition groceries_entry : Regional.entry :=
  Regional.mkEntry (Fin 100) (Fin 90) (Fin 95) (Fin (241 # 2)) (Fin 110).

Definition feSample : list (string * Regional.entry) := [("Groceries", groceries_entry)].

End Samples.

Module ExtraSamples.
Open Scope string_scope.

Definition lf_sep : string := String CSV.lf EmptyString.
Definition crlf_sep : string := String CSV.cr (String CSV.lf EmptyString).

Definition sample_lines : list string :=
  ["id,location,income_weekly"; "1,Texas,900"; "2,Ohio"].
Definition sample_csv : string := join lf_sep sample_lines.

Definition fe_text : string :=
  join lf_sep ["Item,United States Mean (Weekly $),South Mean (Weekly $)"; "Milk ,5,4"].
Definition fe_header : list string :=
  match CSV.parseCSV fe_text with inr (h, _) => h | inl _ => [] end.
Definition fe_objs : list CSV.obj :=
  match CSV.parseCSV fe_text with inr (_, rs) => rs | inl _ => [] end.
Definition milk_entry : Regional.entry :=
  Regional.mkEntry (Fin 5) (Fin 0) (Fin 0) (Fin 4) (Fin 0).

Definition income_tx : CSV.obj :=
  [("id", Some "7"); ("location", Some "Texas"); ("income_weekly", Some "1000")].
Definition income_tx_again : CSV.obj :=
  [("id", Some "7"); ("location", Some "Texas"); ("income_weekly", Some "5000")].
Definition income_fl : CSV.obj :=
  [("id", Some "8"); ("location", Some "Florida"); ("income_weekly", Some "");
   ("income_yearly", Some "104000")].

End ExtraSamples.

(* ================================================================== *)
(** * Properties *)

Module WeekFacts.

Lemma week_diff_getDay (a : Z) :
  week_diff ((a + 4) mod 7) = - ((a + 3) mod 7).
Proof.
  unfold week_diff.
  destruct (Z.eqb_spec ((a + 4) mod 7) 0) as [H | H];
    Z.div_mod_to_equations; lia.
Qed.

(** Closed form of [weekStartISO] in a fixed-offset zone: the Monday of the
    local date of UTC midnight, read back as a UTC date. *)
Lemma weekStartISO_formula (tzo d : Z) :
  weekStartISO tzo d =
  (d + tzo / msPerDay) - ((d + tzo / msPerDay + 3) mod 7) + (- tzo) / msPerDay.
Proof.
  unfold weekStartISO, weekStart_time, parseDateOnly, getDay, setHours0,
    addDays, isoDate.
  assert (Ha : (d * msPerDay + tzo) / msPerDay = d + tzo / msPerDay).
  { rewrite Z.add_comm, Z.div_add by (unfold msPerDay; lia). lia. }
  rewrite Ha, week_diff_getDay.
  set (a := d + tzo / msPerDay).
  set (w := - ((a + 3) mod 7)).
  assert (Hb : (d * msPerDay + w * msPerDay + tzo) / msPerDay = a + w).
  { replace (d * msPerDay + w * msPerDay + tzo) with (tzo + (d + w) * msPerDay) by lia.
    rewrite Z.div_add by (unfold msPerDay; lia). unfold a. lia. }
  rewrite Hb.
  replace ((a + w) * msPerDay - tzo) with (- tzo + (a + w) * msPerDay) by lia.
  rewrite Z.div_add by (unfold msPerDay; lia).
  unfold w. lia.
Qed.

(** In UTC the bucketing is idempotent. *)
Lemma weekStartISO_utc (d : Z) : weekStartISO 0 d = d - (d + 3) mod 7.
Proof.
  rewrite weekStartISO_formula.
  change (0 / msPerDay) with 0. change (- 0 / msPerDay) with 0. rewrite !Z.add_0_r. reflexivity.
Qed.

Lemma weekStartISO_utc_idempotent (d : Z) :
  weekStartISO 0 (weekStartISO 0 d) = weekStartISO 0 d.
Proof.
  rewrite !weekStartISO_utc. Z.div_mod_to_equations. lia.
Qed.

Lemma div_ms_west (tzo : Z) :
  - msPerDay < tzo < 0 -> tzo / msPerDay = -1 /\ (- tzo) / msPerDay = 0.
Proof. unfold msPerDay. intros H. split; Z.div_mod_to_equations; lia. Qed.

Lemma div_ms_east (tzo : Z) :
  0 < tzo < msPerDay -> tzo / msPerDay = 0 /\ (- tzo) / msPerDay = -1.
Proof. unfold msPerDay. intros H. split; Z.div_mod_to_equations; lia. Qed.


(** [isoDate] of a time moved by whole days. *)
Lemma isoDate_addDays (t k : Z) : isoDate (addDays t k) = isoDate t + k.
Proof.
  unfold isoDate, addDays. rewrite Z.div_add by (unfold msPerDay; lia). reflexivity.
Qed.

(** Closed form of the Monday computed by [lastNWeeksEndingAt] and
    [weeksFromRange]: local midnight of the Monday of the local date. *)
Lemma monday_of_formula (tzo d : Z) :
  monday_of tzo d = (d - (d + 3) mod 7) * msPerDay - tzo.
Proof.
  unfold monday_of, parseLocalMidnight, getDay, setHours0, addDays.
  replace (d * msPerDay - tzo + tzo) with (d * msPerDay) by lia.
  rewrite Z.div_mul by (unfold msPerDay; lia).
  rewrite week_diff_getDay.
  replace (d * msPerDay - tzo + - ((d + 3) mod 7) * msPerDay + tzo)
    with ((d - (d + 3) mod 7) * msPerDay) by lia.
  rewrite Z.div_mul by (unfold msPerDay; lia). reflexivity.
Qed.

Lemma labels_down_length (m : Z) (n : nat) : List.length (labels_down m n) = n.
Proof. induction n; simpl; auto. Qed.

Lemma labels_down_nth (m : Z) (n j : nat) :
  (j < n)%nat ->
  nth j (labels_down m n) 0 = isoDate m - Z.of_nat (n - 1 - j) * 7.
Proof.
  revert j. induction n as [| n IH]; intros j Hj; [lia |].
  destruct j as [| j]; simpl.
  - rewrite isoDate_addDays. replace (n - 0)%nat with n by lia. lia.
  - rewrite IH by lia. replace (n - 0 - S j)%nat with (n - 1 - j)%nat by lia. reflexivity.
Qed.

Lemma last_cons {A : Type} (x : A) (l : list A) (d : A) :
  l <> [] -> last (x :: l) d = last l d.
Proof. destruct l; [congruence | reflexivity]. Qed.

Lemma labels_down_last (m : Z) (n : nat) :
  (0 < n)%nat -> last (labels_down m n) 0 = isoDate m.
Proof.
  induction n as [| n IH]; intros Hn; [lia |].
  destruct n as [| n].
  - simpl. rewrite isoDate_addDays. lia.
  - change (last (isoDate (addDays m (- (Z.of_nat (S n) * 7)))
                  :: labels_down m (S n)) 0 = isoDate m).
    rewrite last_cons by (simpl; discriminate). apply IH. lia.
Qed.

(** [lastNWeeksEndingAt] in any fixed-offset zone: [n] labels, oldest
    first, each 7 days after the previous. *)
Lemma lastNWeeksEndingAt_shape (tzo : Z) (n : nat) (ref : Z) :
  List.length (lastNWeeksEndingAt tzo n ref) = n /\
  forall j, (S j < n)%nat ->
    nth (S j) (lastNWeeksEndingAt tzo n ref) 0 = nth j (lastNWeeksEndingAt tzo n ref) 0 + 7.
Proof.
  unfold lastNWeeksEndingAt. split.
  - apply labels_down_length.
  - intros j Hj. rewrite !labels_down_nth by lia. lia.
Qed.

(** In UTC the last label is [weekStartISO(ref)]. *)
Lemma lastNWeeksEndingAt_last_utc (n : nat) (ref : Z) :
  (0 < n)%nat -> last (lastNWeeksEndingAt 0 n ref) 0 = weekStartISO 0 ref.
Proof.
  intros Hn. unfold lastNWeeksEndingAt.
  rewrite labels_down_last by exact Hn.
  rewrite monday_of_formula, weekStartISO_utc. unfold isoDate.
  rewrite Z.sub_0_r, Z.div_mul by (unfold msPerDay; lia). reflexivity.
Qed.


Lemma wfr_loop_length (fuel : nat) (d e : Z) (labels : list Z) :
  (List.length labels <= 520)%nat -> (List.length (wfr_loop fuel d e labels) <= 521)%nat.
Proof.
  revert d labels. induction fuel as [| f IH]; intros d labels H; simpl; [lia |].
  destruct (d <=? e); [| lia].
  destruct (Nat.ltb 520 (List.length (labels ++ [isoDate d]))) eqn:E.
  - rewrite length_app. simpl. lia.
  - apply IH. apply Nat.ltb_ge in E. exact E.
Qed.

(** [weeksFromRange] never holds more than 521 labels. *)
Lemma weeksFromRange_length (tzo s e : Z) : (List.length (weeksFromRange tzo s e) <= 521)%nat.
Proof. apply wfr_loop_length. simpl. lia. Qed.

End WeekFacts.

Module MapFacts.
Section MapFacts.
Context {K V : Type} (keq : K -> K -> bool).
Hypothesis keq_spec : forall a b, keq a b = true <-> a = b.

Lemma keq_refl (k : K) : keq k k = true.
Proof. apply keq_spec. reflexivity. Qed.

Lemma keq_false (a b : K) : a <> b -> keq a b = false.
Proof.
  intros H. destruct (keq a b) eqn:E; [| reflexivity].
  apply keq_spec in E. contradiction.
Qed.

Lemma get_set_same (k : K) (v : V) (m : list (K * V)) :
  JSMap.get keq k (JSMap.set keq k v m) = Some v.
Proof.
  induction m as [| [k' v'] m IH]; simpl.
  - rewrite keq_refl. reflexivity.
  - destruct (keq k k') eqn:E; simpl; rewrite ?E; auto.
Qed.

Lemma get_set_other (k k' : K) (v : V) (m : list (K * V)) :
  k' <> k -> JSMap.get keq k' (JSMap.set keq k v m) = JSMap.get keq k' m.
Proof.
  intros Hne. induction m as [| [k0 v0] m IH]; simpl.
  - rewrite keq_false by exact Hne. reflexivity.
  - destruct (keq k k0) eqn:E; simpl.
    + apply keq_spec in E. subst k0. rewrite keq_false by exact Hne. reflexivity.
    + destruct (keq k' k0); auto.
Qed.

Lemma in_keys_get (k : K) (m : list (K * V)) :
  In k (map fst m) <-> exists v, JSMap.get keq k m = Some v.
Proof.
  induction m as [| [k' v'] m IH]; simpl.
  - split; [tauto | intros [v H]; discriminate].
  - destruct (keq k k') eqn:E.
    + apply keq_spec in E. subst. split; eauto.
    + split.
      * intros [H | H]; [subst; rewrite keq_refl in E; discriminate | apply IH; exact H].
      * intros H. right. apply IH. exact H.
Qed.

Lemma has_in_keys (k : K) (m : list (K * V)) :
  JSMap.has keq k m = true <-> In k (map fst m).
Proof.
  unfold JSMap.has. rewrite in_keys_get.
  destruct (JSMap.get keq k m); split; intros H; eauto; try discriminate.
  destruct H as [v' H]; discriminate.
Qed.

Lemma keys_set_in (k k' : K) (v : V) (m : list (K * V)) :
  In k' (map fst (JSMap.set keq k v m)) <-> k' = k \/ In k' (map fst m).
Proof.
  induction m as [| [k0 v0] m IH]; simpl.
  - intuition congruence.
  - destruct (keq k k0) eqn:E; simpl.
    + apply keq_spec in E. subst. intuition congruence.
    + rewrite IH. intuition congruence.
Qed.

Lemma keys_set_nodup (k : K) (v : V) (m : list (K * V)) :
  NoDup (map fst m) -> NoDup (map fst (JSMap.set keq k v m)).
Proof.
  induction m as [| [k0 v0] m IH]; simpl; intros H.
  - constructor; [simpl; tauto | constructor].
  - inversion H as [| ? ? Hn Hd]; subst.
    destruct (keq k k0) eqn:E; simpl.
    + constructor; assumption.
    + constructor; [| apply IH; exact Hd].
      rewrite keys_set_in. intros [Heq | Hin]; [| contradiction].
      subst. rewrite keq_refl in E. discriminate.
Qed.

End MapFacts.
End MapFacts.

Module NumFacts.

Lemma Qle_bool_wd (a a' b b' : Q) : a == a' -> b == b' -> Qle_bool a b = Qle_bool a' b'.
Proof.
  intros Ha Hb. destruct (Qle_bool a b) eqn:E1, (Qle_bool a' b') eqn:E2; auto.
  - apply Qle_bool_iff in E1. rewrite Ha, Hb in E1. apply Qle_bool_iff in E1. congruence.
  - apply Qle_bool_iff in E2. rewrite <- Ha, <- Hb in E2. apply Qle_bool_iff in E2. congruence.
Qed.

Lemma round_half_away_wd (x y : Q) : x == y -> round_half_away x = round_half_away y.
Proof.
  intros H. unfold round_half_away.
  rewrite (Qle_bool_wd 0 0 x y) by (reflexivity || exact H).
  destruct (Qle_bool 0 y).
  - apply Qfloor_comp. rewrite H. reflexivity.
  - f_equal. apply Qfloor_comp. rewrite H. reflexivity.
Qed.

(** [round2] depends only on the value of a finite number. *)
Lemma round2_Qeq (q q' : Q) : q == q' -> round2 (Fin q) = round2 (Fin q').
Proof.
  intros H. unfold round2.
  assert (Ha : Qabs q == Qabs q') by (apply Qabs_wd; exact H).
  rewrite (Qle_bool_wd _ _ _ _ (Qeq_refl _) Ha).
  destruct (Qle_bool _ (Qabs q')).
  - f_equal. apply Qred_complete. exact H.
  - do 2 f_equal. rewrite (round_half_away_wd (q * 100) (q' * 100)); [reflexivity |]. rewrite H. reflexivity.
Qed.

Lemma round2_zero : round2 (Fin 0) = Fin 0.
Proof. reflexivity. Qed.

(** Averaging one value: [(0 + v) / 1], rounded, is [v] rounded. *)
Lemma round2_single (v : num) :
  round2 (div (add (Fin 0) v) (Fin (inject_Z (Z.of_nat 1)))) = round2 v.
Proof.
  destruct v as [q | | |]; try reflexivity.
  unfold add, div. change (Qeq_bool (inject_Z (Z.of_nat 1)) 0) with false. cbv iota.
  apply round2_Qeq.
  rewrite Qplus_0_l. unfold Qdiv. change (/ inject_Z (Z.of_nat 1))%Q with 1%Q. rewrite Qmult_1_r. reflexivity.
Qed.

End NumFacts.

Module AggFacts.
Import Aggregation.

Lemma okey_eqb_spec (a b : okey) : okey_eqb a b = true <-> a = b.
Proof.
  destruct a as [x |], b as [y |]; simpl; try (split; congruence).
  rewrite String.eqb_eq. split; congruence.
Qed.

Lemma sum_count_count (w : Z) (es : user_map) (s : num) (c : nat) :
  snd (sum_count w es s c) = (c + List.length es)%nat.
Proof.
  revert s c. induction es as [| [k wm] es IH]; intros s c; simpl; [lia |].
  rewrite IH. lia.
Qed.

Lemma okey_eqb_refl (a : okey) : okey_eqb a a = true.
Proof. apply okey_eqb_spec. reflexivity. Qed.

Lemma state_entry_before (loc : okey) (suw : state_map) :
  match JSMap.get okey_eqb loc
          (if JSMap.has okey_eqb loc suw then suw else JSMap.set okey_eqb loc [] suw)
  with Some m => m | None => [] end = cohort_users suw loc.
Proof.
  unfold cohort_users. destruct (JSMap.has okey_eqb loc suw) eqn:H; [reflexivity |].
  rewrite (MapFacts.get_set_same okey_eqb okey_eqb_spec).
  unfold JSMap.has in H. destruct (JSMap.get okey_eqb loc suw); [discriminate | reflexivity].
Qed.

Lemma state_entry_other (loc loc' : okey) (suw : state_map) :
  loc' <> loc ->
  JSMap.get okey_eqb loc'
    (if JSMap.has okey_eqb loc suw then suw else JSMap.set okey_eqb loc [] suw) =
  JSMap.get okey_eqb loc' suw.
Proof.
  intros Hne. destruct (JSMap.has okey_eqb loc suw); [reflexivity |].
  apply (MapFacts.get_set_other okey_eqb okey_eqb_spec). exact Hne.
Qed.

(** One accumulated row adds its user to the user set of its own state,
    and to no other. *)
Lemma agg_row_cohort_keys (userId : okey) (r : row) (amt : num) (week : Z)
    (um : week_map) (suw : state_map) (loc' : okey) :
  (forall k, In k (map fst (cohort_users (snd (agg_row userId r amt week um suw)) loc')) <->
             In k (map fst (cohort_users suw loc')) \/ (loc' = location r /\ k = id r)) /\
  (NoDup (map fst (cohort_users suw loc')) ->
   NoDup (map fst (cohort_users (snd (agg_row userId r amt week um suw)) loc'))).
Proof.
  unfold agg_row. cbn [snd].
  destruct (okey_eqb loc' (location r)) eqn:El.
  - apply okey_eqb_spec in El. subst loc'.
    unfold cohort_users at 1 4.
    rewrite (MapFacts.get_set_same okey_eqb okey_eqb_spec).
    rewrite state_entry_before.
    generalize (cohort_users suw (location r)) as uis. intros uis.
    match goal with |- context [JSMap.set okey_eqb (id r) ?w _] => generalize w end.
    intros wm.
    assert (Hk1 : forall k, In k (map fst (if JSMap.has okey_eqb (id r) uis then uis
                                             else JSMap.set okey_eqb (id r) [] uis))
                            <-> k = id r \/ In k (map fst uis)).
    { intros k. destruct (JSMap.has okey_eqb (id r) uis) eqn:Hh.
      - apply (MapFacts.has_in_keys okey_eqb okey_eqb_spec) in Hh. intuition congruence.
      - apply (MapFacts.keys_set_in okey_eqb okey_eqb_spec). }
    split.
    + intros k. rewrite (MapFacts.keys_set_in okey_eqb okey_eqb_spec), Hk1.
      intuition congruence.
    + intros Hd. apply (MapFacts.keys_set_nodup okey_eqb okey_eqb_spec).
      destruct (JSMap.has okey_eqb (id r) uis); [exact Hd |].
      apply (MapFacts.keys_set_nodup okey_eqb okey_eqb_spec). exact Hd.
  - assert (Hne : loc' <> location r).
    { intros E. subst. rewrite okey_eqb_refl in El. discriminate. }
    unfold cohort_users at 1 4.
    rewrite (MapFacts.get_set_other okey_eqb okey_eqb_spec) by exact Hne.
    rewrite state_entry_other by exact Hne.
    split; [intros k; intuition congruence | tauto].
Qed.

Section Loops.
Variable parseFloat : option string -> num.
Variable parseDate : option string -> option Z.
Variable tzo : Z.

Lemma agg_loop_skip_invalid (userId : okey) (rows : list row) (acc : week_map * state_map) :
  agg_loop parseFloat parseDate tzo userId rows acc =
  agg_loop parseFloat parseDate tzo userId (filter (valid_amount parseFloat) rows) acc.
Proof.
  revert acc. induction rows as [| r rs IH]; intros acc; simpl; [reflexivity |].
  unfold valid_amount at 1. unfold agg_step.
  destruct (isNaN (parseFloat (purchase_amount r))) eqn:E; simpl.
  - apply IH.
  - unfold agg_step. rewrite E.
    destruct (weekStartISO_str parseDate tzo (purchase_date r)); [reflexivity | apply IH].
Qed.

Lemma agg_sel_loop_skip_invalid (types : list string) (userId : okey) (rows : list row)
    (acc : week_map * state_map) :
  agg_sel_loop parseFloat parseDate tzo types userId rows acc =
  agg_sel_loop parseFloat parseDate tzo types userId (filter (valid_amount parseFloat) rows) acc.
Proof.
  revert acc. induction rows as [| r rs IH]; intros acc; simpl; [reflexivity |].
  unfold valid_amount at 1.
  destruct (isNaN (parseFloat (purchase_amount r))) eqn:E; simpl.
  - destruct (negb (typesSet_has types (purchase_type r))); [apply IH |].
    unfold agg_step. rewrite E. apply IH.
  - destruct (negb (typesSet_has types (purchase_type r))); [apply IH |].
    unfold agg_step. rewrite E.
    destruct (weekStartISO_str parseDate tzo (purchase_date r)); [reflexivity | apply IH].
Qed.

(** Over a whole pass, the users of state [loc] are the earlier ones plus
    every id with a valid-amount row at [loc], each once. *)
Lemma agg_loop_cohort_keys (userId : okey) (rows : list row) (um : week_map) (suw : state_map)
    (um' : week_map) (suw' : state_map) :
  agg_loop parseFloat parseDate tzo userId rows (um, suw) = inr (um', suw') ->
  forall loc,
    (NoDup (map fst (cohort_users suw loc)) -> NoDup (map fst (cohort_users suw' loc))) /\
    (forall k, In k (map fst (cohort_users suw' loc)) <->
               In k (map fst (cohort_users suw loc)) \/
               exists r, In r rows /\ valid_amount parseFloat r = true /\
                         location r = loc /\ id r = k).
Proof.
  revert um suw. induction rows as [| r rs IH]; intros um suw Hrun loc; simpl in Hrun.
  - injection Hrun as <- <-. split; [tauto |].
    intros k. split; [tauto |]. intros [H | [r [[] _]]]. exact H.
  - unfold agg_step in Hrun. unfold valid_amount.
    destruct (isNaN (parseFloat (purchase_amount r))) eqn:En; cbn [fst snd] in Hrun.
    + destruct (IH um suw Hrun loc) as [Hd Hk]. split; [exact Hd |].
      intros k. rewrite Hk. split.
      * intros [H | [r' [Hin Hr']]]; [left; exact H | right; exists r'; simpl; tauto].
      * intros [H | [r' [[<- | Hin] Hr']]]; [left; exact H | | right; exists r'; tauto].
        rewrite En in Hr'. destruct Hr' as [Hr' _]. discriminate.
    + destruct (weekStartISO_str parseDate tzo (purchase_date r)) as [e | week];
        [discriminate |].
      destruct (agg_row userId r (parseFloat (purchase_amount r)) week um suw) as [um1 suw1]
        eqn:Erow.
      destruct (IH um1 suw1 Hrun loc) as [Hd Hk].
      pose proof (agg_row_cohort_keys userId r (parseFloat (purchase_amount r)) week um suw loc)
        as [Hk1 Hd1].
      rewrite Erow in Hk1, Hd1. cbn [snd] in Hk1, Hd1.
      split; [intros H; apply Hd, Hd1, H |].
      intros k. rewrite Hk, Hk1. split.
      * intros [[H | [Hl Hi]] | [r' [Hin Hr']]].
        -- left; exact H.
        -- right. exists r. simpl. rewrite En. intuition congruence.
        -- right. exists r'. simpl. tauto.
      * intros [H | [r' [[<- | Hin] Hr']]].
        -- left; left; exact H.
        -- left; right. destruct Hr' as [_ [Hl Hi]]. split; congruence.
        -- right. exists r'. tauto.
Qed.

End Loops.
End AggFacts.

Module IncomeFacts.

(** Both incomes finite and positive: the factor is their ratio. *)
Lemma incomeScaleFactor_positive (r u : Q) :
  (0 < r)%Q -> (0 < u)%Q -> Income.incomeScaleFactor (Some (Fin r)) (Fin u) = Fin (u / r)%Q.
Proof.
  intros Hr Hu. unfold Income.incomeScaleFactor, Income.adjust_branch.
  assert (E1 : Qeq_bool r 0 = false).
  { destruct (Qeq_bool r 0) eqn:E; [| reflexivity].
    apply Qeq_bool_iff in E. rewrite E in Hr. discriminate. }
  assert (E2 : Qle_bool r 0 = false).
  { destruct (Qle_bool r 0) eqn:E; [| reflexivity].
    apply Qle_bool_iff in E. exfalso. apply (Qlt_not_le 0 r); assumption. }
  assert (E3 : Qle_bool u 0 = false).
  { destruct (Qle_bool u 0) eqn:E; [| reflexivity].
    apply Qle_bool_iff in E. exfalso. apply (Qlt_not_le 0 u); assumption. }
  unfold truthy, isFinite, gt0, div. cbv beta iota.
  rewrite E1, E2, E3. reflexivity.
Qed.

(** An absent, zero, NaN or minus-infinite average, or a zero or
    non-finite user income: factor 1, reference value unchanged. *)
Lemma incomeScaleFactor_one (ra : option num) (u : num) :
  ra = None \/ ra = Some (Fin 0) \/ ra = Some NaN \/ ra = Some NInf \/
  u = Fin 0 \/ isFinite u = false ->
  Income.incomeScaleFactor ra u = Fin 1 /\ forall t, Income.adjustedTotal t ra u = t.
Proof.
  intros H.
  assert (Hb : Income.adjust_branch ra u = false).
  { unfold Income.adjust_branch.
    destruct H as [-> | [-> | [-> | [-> | [-> | H]]]]]; cbn [truthy isFinite gt0];
      try reflexivity.
    - rewrite !andb_false_r. reflexivity.
    - destruct ra as [ra |]; [| reflexivity].
      rewrite andb_false_r. reflexivity.
    - destruct ra as [ra |]; [| reflexivity].
      rewrite H, andb_false_r. reflexivity. }
  unfold Income.incomeScaleFactor, Income.adjustedTotal.
  destruct ra as [ra |]; [rewrite Hb | ]; split; auto.
Qed.

End IncomeFacts.

(* ================================================================== *)
(** * Claims *)

Module Claims.
Import WeekFacts NumFacts AggFacts Samples.
Open Scope string_scope.

(** C1 (weekStart idempotent).  [weekStartISO] parses its date-only
    argument as UTC midnight but buckets with the local [getDay] and
    [setHours] and prints the UTC date.  In every zone at a non-zero offset
    (less than a day) applying it to its own output moves the label one week
    earlier, so it is idempotent only in UTC. *)
Theorem C1_weekStart_twice_off_utc (tzo d : Z) :
  tzo <> 0 -> - msPerDay < tzo < msPerDay ->
  weekStartISO tzo (weekStartISO tzo d) = weekStartISO tzo d - 7.
Proof.
  intros Hnz Hb.
  destruct (Z.lt_ge_cases tzo 0) as [Hw | He].
  - destruct (div_ms_west tzo ltac:(lia)) as [H1 H2].
    rewrite !weekStartISO_formula, H1, H2.
    Z.div_mod_to_equations. lia.
  - destruct (div_ms_east tzo ltac:(lia)) as [H1 H2].
    rewrite !weekStartISO_formula, H1, H2.
    Z.div_mod_to_equations. lia.
Qed.

Lemma C1_witness :
  weekStartISO tz_west day_2025_06_02 = day_2025_05_26 /\
  weekStartISO tz_west (weekStartISO tz_west day_2025_06_02) = day_2025_05_19 /\
  weekStartISO tz_west (weekStartISO tz_west day_2025_06_02) =
    weekStartISO tz_west day_2025_06_02 - 7.
Proof.
  split; [reflexivity | split; [reflexivity |]].
  apply C1_weekStart_twice_off_utc; unfold tz_west, msPerDay; lia.
Defined.

(** C2 (trailingWeeks ends at weekStart(ref)).  [lastNWeeksEndingAt]
    parses its reference date as local midnight while [weekStartISO] parses
    as UTC midnight: west of UTC, for a Monday reference date and [n >= 1],
    the last label is the reference Monday itself, one week after
    [weekStartISO(ref)]. *)
Theorem C2_lastNWeeks_last_west_monday (tzo : Z) (n : nat) (ref : Z) :
  - msPerDay < tzo < 0 -> (0 < n)%nat -> getDay 0 (parseDateOnly ref) = 1 ->
  last (lastNWeeksEndingAt tzo n ref) 0 = weekStartISO tzo ref + 7.
Proof.
  intros Hb Hn Hmon. unfold lastNWeeksEndingAt.
  rewrite labels_down_last by exact Hn.
  destruct (div_ms_west tzo Hb) as [H1 H2].
  rewrite monday_of_formula, weekStartISO_formula, H1, H2.
  unfold getDay, parseDateOnly in Hmon.
  rewrite Z.add_0_r, Z.div_mul in Hmon by (unfold msPerDay; lia).
  unfold isoDate.
  replace ((ref - (ref + 3) mod 7) * msPerDay - tzo)
    with (- tzo + (ref - (ref + 3) mod 7) * msPerDay) by lia.
  rewrite Z.div_add, H2 by (unfold msPerDay; lia).
  Z.div_mod_to_equations. lia.
Qed.

Lemma C2_witness :
  lastNWeeksEndingAt tz_west 6 day_2025_06_30 =
    [day_2025_05_26; day_2025_06_02; days_from_civil 2025 6 9;
     days_from_civil 2025 6 16; day_2025_06_23; day_2025_06_30] /\
  weekStartISO tz_west day_2025_06_30 = day_2025_06_23 /\
  last (lastNWeeksEndingAt tz_west 6 day_2025_06_30) 0 =
    weekStartISO tz_west day_2025_06_30 + 7.
Proof.
  split; [reflexivity | split; [reflexivity |]].
  apply C2_lastNWeeks_last_west_monday; [unfold tz_west, msPerDay; lia | lia | reflexivity].
Defined.

(** C3 (weeksInRange length at most 520).  The cap test [labels.length > 520]
    runs after the push, so a long range yields 521 labels. *)
Theorem C3_weeksInRange_521_labels :
  List.length (weeksInRange 0 day_2000_01_03 day_2020_01_06) = 521%nat.
Proof. vm_compute. reflexivity. Qed.

(** C4 (swap invariance).  With the swap of [drawChartForUser] in front of
    [weeksFromRange], argument order never changes the labels. *)
Theorem C4_weeksInRange_swap (tzo a b : Z) :
  weeksInRange tzo a b = weeksInRange tzo b a.
Proof.
  unfold weeksInRange.
  destruct (Z.gtb_spec a b), (Z.gtb_spec b a); try reflexivity; try lia.
  assert (a = b) by lia. subst. reflexivity.
Qed.

(** C5 (cohort average, empty and one-entity cohorts).  For a state with no
    recorded users every week averages to 0; for a state with exactly one
    user the average of each week is that user's rounded weekly total, as
    [mapUserToWeeks] computes it. *)
Theorem C5_cohort_average_empty_single :
  (forall suw state weeks, Aggregation.cohort_users suw state = [] ->
     Aggregation.computeStateAverageForWeeks suw state weeks = map (fun _ => Fin 0) weeks) /\
  (forall suw state weeks uid wm, Aggregation.cohort_users suw state = [(uid, wm)] ->
     Aggregation.computeStateAverageForWeeks suw state weeks =
     Aggregation.mapUserToWeeks wm weeks).
Proof.
  split.
  - intros suw state weeks H. unfold Aggregation.computeStateAverageForWeeks.
    rewrite H. apply map_ext. intros w. simpl. apply round2_zero.
  - intros suw state weeks uid wm H.
    unfold Aggregation.computeStateAverageForWeeks, Aggregation.mapUserToWeeks.
    rewrite H. apply map_ext. intros w. simpl.
    apply round2_single.
Qed.

Lemma C5_witness :
  Aggregation.computeStateAverageForWeeks sample_state_map (Some "Ohio")
    [day_2025_06_02; day_2025_06_30] = [Fin (41 # 4); Fin 0] /\
  Aggregation.computeStateAverageForWeeks sample_state_map (Some "Nevada")
    [day_2025_06_02] = [Fin 0].
Proof.
  destruct C5_cohort_average_empty_single as [Hempty Hone]. split.
  - rewrite (Hone sample_state_map (Some "Ohio") _ (Some "1")
               [(day_2025_06_02, Fin (41 # 4))]) by (vm_compute; reflexivity).
    vm_compute. reflexivity.
  - rewrite (Hempty sample_state_map (Some "Nevada")) by (vm_compute; reflexivity).
    reflexivity.
Defined.

(** C6, counterexample: with the table entry "Groceries" (South mean 120.5),
    the category "grocery store" matches nothing ("grocerystore" and
    "groceries" contain neither the other), so no reference value exists. *)
Lemma C6_grocery_store_no_match :
  Regional.matchCategory "grocery store" feSample = None /\
  Regional.regionalReference feSample Regional.South ["grocery store"] = None.
Proof. split; vm_compute; reflexivity. Qed.

(** C6 (amended).  Against a table whose only entry is "Groceries", whatever
    its regional means and whatever the region, selecting "grocery store"
    finds no normalized-substring match and produces no reference value, so
    no reference line is drawn. *)
Theorem C6_groceries_table_grocery_store_no_reference (e : Regional.entry) (reg : Regional.region) :
  Regional.matchCategory "grocery store" [("Groceries", e)] = None /\
  Regional.regionalReference [("Groceries", e)] reg ["grocery store"] = None.
Proof.
  split; reflexivity.
Qed.

(** C7 (non-numeric amounts skipped).  In [computeAggregates] and in the
    filtered accumulation of [drawChartForUser], rows whose amount parses to
    NaN change nothing and abort nothing: the result over all rows equals
    the result over the rows with a numeric amount. *)
Theorem C7_invalid_amount_rows_ignored
    (parseFloat : option string -> num) (parseDate : option string -> option Z) (tzo : Z)
    (rows : list row) (userId : okey) (types : list string) (selUser : string) :
  Aggregation.computeAggregates parseFloat parseDate tzo rows userId =
  Aggregation.computeAggregates parseFloat parseDate tzo
    (filter (Aggregation.valid_amount parseFloat) rows) userId /\
  Aggregation.aggregateSelected parseFloat parseDate tzo rows types selUser =
  Aggregation.aggregateSelected parseFloat parseDate tzo
    (filter (Aggregation.valid_amount parseFloat) rows) types selUser.
Proof.
  split.
  - apply agg_loop_skip_invalid.
  - apply agg_sel_loop_skip_invalid.
Qed.

(** C8 (income scale factor).  The code tests [Number.isFinite] on the
    user's income but not on the region average: when the average is
    Infinity the factor is [income / Infinity = 0] and the reference value
    is scaled to 0 instead of being left unadjusted. *)
Theorem C8_infinite_average_income_factor_zero :
  Income.incomeScaleFactor (Some PInf) (Fin 2000) = Fin 0 /\
  Income.adjustedTotal (Fin (241 # 2)) (Some PInf) (Fin 2000) = Fin 0.
Proof. split; reflexivity. Qed.

(** C9, counterexample: on empty text [parseCSV] throws the TypeError of
    calling [split] on [undefined]; there is no distinguished empty-input
    error. *)
Lemma C9_empty_text_type_error :
  CSV.parseCSV "" = inl TypeError /\ CSV.parseCSV "" <> inl (UserError "EmptyInputError").
Proof. split; [reflexivity | discriminate]. Qed.

(** C9 (amended).  [parseCSV] throws a generic TypeError exactly when the
    text has no non-empty line, and returns a header and rows otherwise. *)
Theorem C9_parseCSV_fails_iff_no_line (text : string) :
  ((forall l, In l (CSV.split_lines text) -> l = "") -> CSV.parseCSV text = inl TypeError) /\
  ((exists l, In l (CSV.split_lines text) /\ l <> "") ->
   exists header rows, CSV.parseCSV text = inr (header, rows)).
Proof.
  unfold CSV.parseCSV. split.
  - intros Hall.
    assert (Hf : filter CSV.nonempty (CSV.split_lines text) = []).
    { induction (CSV.split_lines text) as [| l ls IH]; [reflexivity |].
      simpl. rewrite (Hall l (or_introl eq_refl)). simpl.
      apply IH. intros l' Hin. apply Hall. right. exact Hin. }
    rewrite Hf. reflexivity.
  - intros [l [Hin Hne]].
    assert (Hf : In l (filter CSV.nonempty (CSV.split_lines text))).
    { apply filter_In. split; [exact Hin |]. destruct l; [congruence | reflexivity]. }
    destruct (filter CSV.nonempty (CSV.split_lines text)) as [| h rest]; [destruct Hf |].
    eexists. eexists. reflexivity.
Qed.

Lemma C9_witness :
  CSV.parseCSV "" = inl TypeError /\
  exists header rows, CSV.parseCSV "id,location" = inr (header, rows).
Proof.
  destruct (C9_parseCSV_fails_iff_no_line "") as [Hempty _].
  destruct (C9_parseCSV_fails_iff_no_line "id,location") as [_ Hsome].
  split.
  - apply Hempty. intros l [<- | []]. reflexivity.
  - apply Hsome. exists "id,location". split; [left; reflexivity | discriminate].
Defined.

(** C10 (users counted per state).  After a successful pass, the users of
    each state are exactly the ids having a numeric-amount row in that
    state, each recorded once, and that number is the divisor of the state
    average: a user with rows in several states counts in every one. *)
Theorem C10_cohort_users_per_state
    (parseFloat : option string -> num) (parseDate : option string -> option Z) (tzo : Z)
    (rows : list row) (userId : okey) (um : week_map) (suw : state_map) :
  Aggregation.computeAggregates parseFloat parseDate tzo rows userId = inr (um, suw) ->
  forall loc,
    NoDup (map fst (Aggregation.cohort_users suw loc)) /\
    (forall k, In k (map fst (Aggregation.cohort_users suw loc)) <->
               exists r, In r rows /\ Aggregation.valid_amount parseFloat r = true /\
                         location r = loc /\ id r = k) /\
    (forall w, snd (Aggregation.sum_count w (Aggregation.cohort_users suw loc) (Fin 0) O) =
               List.length (Aggregation.cohort_users suw loc)).
Proof.
  intros Hrun loc.
  destruct (agg_loop_cohort_keys parseFloat parseDate tzo userId rows [] [] um suw Hrun loc)
    as [Hd Hk].
  split; [apply Hd; constructor |]. split.
  - intros k. rewrite Hk. split; [intros [[] | H]; exact H | intros H; right; exact H].
  - intros w. rewrite sum_count_count. reflexivity.
Qed.

Lemma C10_witness :
  In (Some "1") (map fst (Aggregation.cohort_users sample_state_map (Some "Texas"))) /\
  In (Some "1") (map fst (Aggregation.cohort_users sample_state_map (Some "Ohio"))) /\
  ~ In (Some "2") (map fst (Aggregation.cohort_users sample_state_map (Some "Texas"))).
Proof.
  assert (Hrun : sample_run = inr (fst (match sample_run with inr p => p | inl _ => ([], []) end),
                                   sample_state_map)) by (vm_compute; reflexivity).
  pose proof (C10_cohort_users_per_state Builtins.parseFloat_dec Builtins.parseDate_iso 0
                sample_rows (Some "1") _ _ Hrun) as H.
  split; [| split].
  - apply (proj1 (proj2 (H (Some "Texas")))). exists row_tx.
    split; [left; reflexivity |]. vm_compute. auto.
  - apply (proj1 (proj2 (H (Some "Ohio")))). exists row_oh.
    split; [right; left; reflexivity |]. vm_compute. auto.
  - intros Hin. apply (proj1 (proj2 (H (Some "Texas")))) in Hin.
    destruct Hin as [r [[<- | [<- | [<- | []]]] Hr]]; vm_compute in Hr;
      destruct Hr as [Hv [Hl Hi]]; discriminate.
Defined.

End Claims.

(** * Further properties of the dashboard code *)

Module ExtraListFacts.

Lemma existsb_eqb_In (x : string) (l : list string) :
  existsb (String.eqb x) l = true <-> In x l.
Proof.
  rewrite existsb_exists. split.
  - intros [y [Hy Heq]]. apply String.eqb_eq in Heq. subst. exact Hy.
  - intros H. exists x. split; [exact H | apply String.eqb_refl].
Qed.

End ExtraListFacts.

Module ExtraWeekFacts.
Import WeekFacts Dataset.
Open Scope Z_scope.

Lemma map_seq_succ (a : Z) (n : nat) :
  map (fun j => a + 7 * Z.of_nat j) (seq 0 (S n)) =
  a :: map (fun j => (a + 7) + 7 * Z.of_nat j) (seq 0 n).
Proof.
  cbn [seq map]. f_equal; [lia |].
  rewrite <- seq_shift, map_map. apply map_ext. intros j. lia.
Qed.

Lemma wfr_loop_spec (f : nat) (d me : Z) (labels : list Z) :
  (List.length labels <= 520)%nat ->
  wfr_loop f d me labels =
  (labels ++ map (fun j => isoDate d + 7 * Z.of_nat j)
    (seq 0 (Nat.min f (Nat.min (521 - List.length labels)
              (if (d <=? me)%Z then S (Z.to_nat ((me - d) / (7 * msPerDay))) else O)))))%list.
Proof.
  revert d labels. induction f as [| f IH]; intros d labels Hl.
  - simpl. rewrite app_nil_r. reflexivity.
  - simpl wfr_loop. destruct (Z.leb_spec d me) as [Hd | Hd].
    + rewrite length_app. simpl List.length.
      destruct (Nat.ltb_spec 520 (List.length labels + 1)) as [Hc | Hc].
      * replace (Nat.min (S f) (Nat.min (521 - List.length labels)
                   (S (Z.to_nat ((me - d) / (7 * msPerDay)))))) with 1%nat by lia.
        simpl. rewrite Z.add_0_r. reflexivity.
      * rewrite IH by (rewrite length_app; simpl; lia).
        rewrite length_app. simpl List.length.
        set (k := Z.to_nat ((me - d) / (7 * msPerDay))).
        assert (Hk : (if addDays d 7 <=? me
                      then S (Z.to_nat ((me - addDays d 7) / (7 * msPerDay))) else O) = k).
        { unfold k, addDays. destruct (Z.leb_spec (d + 7 * msPerDay) me) as [H7 | H7].
          - replace (me - d) with ((me - (d + 7 * msPerDay)) + 1 * (7 * msPerDay)) by lia.
            rewrite Z.div_add by (unfold msPerDay; lia).
            rewrite Z2Nat.inj_add; [simpl; lia | | lia].
            apply Z.div_pos; unfold msPerDay in *; lia.
          - rewrite Z.div_small by (unfold msPerDay in *; lia). reflexivity. }
        rewrite Hk, isoDate_addDays.
        replace (Nat.min (S f) (Nat.min (521 - List.length labels) (S k)))
          with (S (Nat.min f (Nat.min (521 - (List.length labels + 1)) k))) by lia.
        rewrite map_seq_succ, <- app_assoc. reflexivity.
    + rewrite Nat.min_0_r, Nat.min_0_r. simpl. rewrite app_nil_r. reflexivity.
Qed.

Lemma isoDate_monday_of (tzo d : Z) :
  isoDate (monday_of tzo d) = monday_day d + (- tzo) / msPerDay.
Proof.
  rewrite monday_of_formula. unfold isoDate, monday_day.
  replace ((d - (d + 3) mod 7) * msPerDay - tzo)
    with (- tzo + (d - (d + 3) mod 7) * msPerDay) by lia.
  rewrite Z.div_add by (unfold msPerDay; lia). lia.
Qed.

Lemma monday_day_mod (d : Z) : exists k, monday_day d = 7 * k - 3.
Proof.
  unfold monday_day. exists ((d + 3) / 7). Z.div_mod_to_equations. lia.
Qed.

Lemma monday_day_mono (a b : Z) : a <= b -> monday_day a <= monday_day b.
Proof. unfold monday_day. intros H. Z.div_mod_to_equations. lia. Qed.

Lemma monday_day_bounds (d : Z) : monday_day d <= d < monday_day d + 7.
Proof. unfold monday_day. Z.div_mod_to_equations. lia. Qed.

Lemma weeksFromRange_closed_form (tzo s e : Z) :
  weeksFromRange tzo s e =
  map (fun j => monday_day s + (- tzo) / msPerDay + 7 * Z.of_nat j)
    (seq 0 (Nat.min 521
       (if monday_day s <=? monday_day e
        then S (Z.to_nat ((monday_day e - monday_day s) / 7)) else O))).
Proof.
  unfold weeksFromRange. rewrite wfr_loop_spec by (simpl; lia).
  change (List.length (@nil Z)) with 0%nat. rewrite Nat.sub_0_r, app_nil_l.
  rewrite Nat.min_assoc, Nat.min_id, isoDate_monday_of.
  rewrite !monday_of_formula. fold (monday_day s) (monday_day e).
  assert (Hle : (monday_day s * msPerDay - tzo <=? monday_day e * msPerDay - tzo) =
                (monday_day s <=? monday_day e)).
  { destruct (Z.leb_spec (monday_day s) (monday_day e)),
      (Z.leb_spec (monday_day s * msPerDay - tzo) (monday_day e * msPerDay - tzo));
      unfold msPerDay in *; nia. }
  rewrite Hle.
  replace (monday_day e * msPerDay - tzo - (monday_day s * msPerDay - tzo))
    with ((monday_day e - monday_day s) * msPerDay) by lia.
  rewrite Z.div_mul_cancel_r by (unfold msPerDay; lia).
  reflexivity.
Qed.



Lemma weeksFromRange_length_ordered (tzo a b : Z) :
  a <= b ->
  List.length (weeksFromRange tzo a b) =
  Nat.min 521 (S (Z.to_nat ((monday_day b - monday_day a) / 7))).
Proof.
  intros Hab. rewrite weeksFromRange_closed_form, length_map, length_seq.
  destruct (Z.leb_spec (monday_day a) (monday_day b)) as [H | H]; [reflexivity |].
  pose proof (monday_day_mono a b Hab). lia.
Qed.

(** With both date inputs set, the chart shows [weeksInRange] of them,
    which has between 1 and 521 labels: the 6-week fallback is used only
    when a date input is empty. *)
Theorem chartWeeks_with_range (tzo s e : Z) (datasetMax : option Z) (today : Z) :
  chartWeeks tzo (Some (s, e)) datasetMax today = weeksInRange tzo s e /\
  (1 <= List.length (weeksInRange tzo s e) <= 521)%nat.
Proof.
  assert (Hlen : (1 <= List.length (weeksInRange tzo s e) <= 521)%nat).
  { unfold weeksInRange. destruct (Z.gtb_spec s e) as [H | H];
      rewrite weeksFromRange_length_ordered by lia; lia. }
  split; [| exact Hlen].
  unfold chartWeeks. destruct (weeksInRange tzo s e) as [| w ws]; [simpl in Hlen; lia |].
  reflexivity.
Qed.

(** In UTC, a row dated within the chosen range is bucketed by
    [weekStartISO] into one of the range's labels (for ranges of at most
    521 weeks). *)
Theorem weeksInRange_utc_covers (s e d : Z) :
  s <= d <= e -> monday_day e - monday_day s < 7 * 521 ->
  In (weekStartISO 0 d) (weeksInRange 0 s e).
Proof.
  intros Hd Hspan. unfold weeksInRange.
  destruct (Z.gtb_spec s e) as [H | _]; [lia |].
  rewrite weeksFromRange_closed_form, weekStartISO_utc. fold (monday_day d).
  destruct (monday_day_mod s) as [ks Hs], (monday_day_mod d) as [kd Hkd],
    (monday_day_mod e) as [ke He].
  pose proof (monday_day_mono s d ltac:(lia)). pose proof (monday_day_mono d e ltac:(lia)).
  change ((- 0) / msPerDay) with 0.
  apply in_map_iff. exists (Z.to_nat (kd - ks)). split; [lia |].
  apply in_seq.
  destruct (Z.leb_spec (monday_day s) (monday_day e)) as [_ | Hlt]; [| lia].
  rewrite He, Hs. replace (7 * ke - 3 - (7 * ks - 3)) with ((ke - ks) * 7) by lia.
  rewrite Z.div_mul by lia. lia.
Qed.

Lemma weeksInRange_utc_covers_witness :
  In (weekStartISO 0 Samples.day_2025_06_02)
     (weeksInRange 0 Samples.day_2025_05_19 Samples.day_2025_06_30).
Proof.
  apply weeksInRange_utc_covers.
  - split; vm_compute; congruence.
  - vm_compute. reflexivity.
Defined.

End ExtraWeekFacts.

Module ExtraDatasetFacts.
Import Dataset ExtraListFacts.
Open Scope Z_scope.

Section Range.
Variable parseDate : option string -> option Z.

Lemma range_loop_inv (rows : list row) (mn mx : option Z) (L : list Z) :
  match mn, mx with
  | None, None => L = []
  | Some a, Some b => a <= b /\ In a L /\ In b L /\ (forall d, In d L -> a <= d <= b)
  | _, _ => False
  end ->
  let L' := (L ++ flat_map (fun r => match row_day parseDate r with
                                     | Some d => [d] | None => [] end) rows)%list in
  match range_loop parseDate rows mn mx with
  | (None, None) => L' = []
  | (Some a, Some b) => a <= b /\ In a L' /\ In b L' /\ (forall d, In d L' -> a <= d <= b)
  | _ => False
  end.
Proof.
  revert mn mx L. induction rows as [| r rs IH]; intros mn mx L Hinv; cbn zeta.
  - simpl. rewrite app_nil_r. exact Hinv.
  - cbn [flat_map range_loop].
    destruct (falsy_str (purchase_date r)) eqn:Ef.
    + assert (Hrd : row_day parseDate r = None) by (unfold row_day; rewrite Ef; reflexivity).
      rewrite Hrd, app_nil_l. apply (IH mn mx L Hinv).
    + destruct (parseDate (purchase_date r)) as [t |] eqn:Ep.
      * assert (Hrd : row_day parseDate r = Some (isoDate t))
          by (unfold row_day; rewrite Ef, Ep; reflexivity).
        rewrite Hrd, app_assoc. apply IH.
        destruct mn as [a |], mx as [b |]; try contradiction.
        -- destruct Hinv as [Hab [Ha [Hb Hall]]].
           destruct (Z.ltb_spec (isoDate t) a), (Z.gtb_spec (isoDate t) b);
             (split; [lia | split; [| split]]);
             try (apply in_or_app; (left; assumption) || (right; left; reflexivity));
             intros d Hd; apply in_app_or in Hd; destruct Hd as [Hd | [<- | []]];
             try (apply Hall in Hd); lia.
        -- subst L. simpl. split; [lia | split; [auto | split; [auto |]]].
           intros d [<- | []]. lia.
      * assert (Hrd : row_day parseDate r = None)
          by (unfold row_day; rewrite Ef, Ep; reflexivity).
        rewrite Hrd, app_nil_l. apply (IH mn mx L Hinv).
Qed.

(** [getRowsDateRange]: both bounds are [null] exactly when no row has a
    non-empty parsable date; otherwise [min <= max], both are dates of rows,
    and every parsable row date lies between them. *)
Theorem getRowsDateRange_spec (rows : list row) :
  match getRowsDateRange parseDate rows with
  | (None, None) => forall r, In r rows -> row_day parseDate r = None
  | (Some a, Some b) =>
      a <= b /\
      (exists r, In r rows /\ row_day parseDate r = Some a) /\
      (exists r, In r rows /\ row_day parseDate r = Some b) /\
      (forall r d, In r rows -> row_day parseDate r = Some d -> a <= d <= b)
  | _ => False
  end.
Proof.
  pose proof (range_loop_inv rows None None [] eq_refl) as H. cbn zeta in H.
  rewrite app_nil_l in H. unfold getRowsDateRange.
  assert (Hin : forall d, In d (flat_map (fun r => match row_day parseDate r with
                                                   | Some d => [d] | None => [] end) rows) <->
                          exists r, In r rows /\ row_day parseDate r = Some d).
  { intros d. rewrite in_flat_map. split.
    - intros [r [Hr Hd]]. exists r. split; [exact Hr |].
      destruct (row_day parseDate r); simpl in Hd;
        [destruct Hd as [<- | []]; reflexivity | contradiction].
    - intros [r [Hr Hd]]. exists r. rewrite Hd. split; [exact Hr | left; reflexivity]. }
  destruct (range_loop parseDate rows None None) as [[a |] [b |]]; try contradiction.
  - destruct H as [Hab [Ha [Hb Hall]]].
    split; [exact Hab | split; [apply Hin, Ha | split; [apply Hin, Hb |]]].
    intros r d Hr Hd. apply Hall, Hin. exists r. auto.
  - intros r Hr. destruct (row_day parseDate r) as [d |] eqn:Hd; [| reflexivity].
    assert (Hx : In d []) by (rewrite <- H; apply Hin; exists r; auto). destruct Hx.
Qed.

End Range.

Lemma set_from_spec (acc xs : list string) :
  NoDup acc ->
  NoDup (set_from acc xs) /\ (forall t, In t (set_from acc xs) <-> In t acc \/ In t xs).
Proof.
  revert acc. induction xs as [| x xs IH]; intros acc Hacc; simpl.
  - split; [exact Hacc | tauto].
  - destruct (existsb (String.eqb x) acc) eqn:Ex.
    + apply existsb_eqb_In in Ex.
      destruct (IH acc Hacc) as [Hd Hi]. split; [exact Hd |].
      intros t. rewrite Hi. intuition congruence.
    + assert (Hn : ~ In x acc) by (rewrite <- existsb_eqb_In; congruence).
      assert (Hd' : NoDup (acc ++ [x])%list).
      { apply NoDup_app; [exact Hacc | repeat constructor; simpl; tauto |].
        intros a Ha [<- | []]. contradiction. }
      destruct (IH _ Hd') as [Hd Hi]. split; [exact Hd |].
      intros t. rewrite Hi, in_app_iff. simpl. intuition congruence.
Qed.

Lemma truthy_strings_In (l : list (option string)) (t : string) :
  In t (truthy_strings l) <-> t <> EmptyString /\ In (Some t) l.
Proof.
  induction l as [| [[| a s] |] l IH]; simpl.
  - tauto.
  - rewrite IH. intuition congruence.
  - rewrite IH. split.
    + intros [<- | [Hne Hin]]; split; auto; discriminate.
    + intros [Hne [Heq | Hin]]; [left; congruence | right; auto].
  - rewrite IH. intuition congruence.
Qed.

Lemma purchaseTypes_In (rows : list row) (t : string) :
  In t (purchaseTypes rows) <->
  t <> EmptyString /\ exists r, In r rows /\ purchase_type r = Some t.
Proof.
  unfold purchaseTypes. destruct (set_from_spec [] (truthy_strings (map purchase_type rows)))
    as [_ Hi]; [constructor |].
  rewrite Hi, truthy_strings_In, in_map_iff. simpl.
  split.
  - intros [[] | [Hne [r [Hr Hin]]]]. split; [exact Hne | exists r; auto].
  - intros [Hne [r [Hin Hr]]]. right. split; [exact Hne | exists r; auto].
Qed.

(** The purchase types offered as checkboxes: each non-empty
    [purchase_type] of the rows, each once. *)
Theorem purchaseTypes_spec (rows : list row) :
  NoDup (purchaseTypes rows) /\
  (forall t, In t (purchaseTypes rows) <->
             t <> EmptyString /\ exists r, In r rows /\ purchase_type r = Some t).
Proof.
  split; [| apply purchaseTypes_In].
  unfold purchaseTypes. apply set_from_spec. constructor.
Qed.

End ExtraDatasetFacts.

Module ExtraSelectFacts.
Import Aggregation Dataset ExtraDatasetFacts.

Section Select.
Variable parseFloat : option string -> num.
Variable parseDate : option string -> option Z.
Variable tzo : Z.

Lemma agg_sel_loop_filter (types : list string) (userId : okey) (rows : list row)
    (acc : week_map * state_map) :
  agg_sel_loop parseFloat parseDate tzo types userId rows acc =
  agg_loop parseFloat parseDate tzo userId
    (filter (fun r => typesSet_has types (purchase_type r)) rows) acc.
Proof.
  revert acc. induction rows as [| r rs IH]; intros acc; simpl; [reflexivity |].
  destruct (typesSet_has types (purchase_type r)); simpl; [| apply IH].
  destruct (agg_step parseFloat parseDate tzo userId r acc); [reflexivity | apply IH].
Qed.

(** The accumulation of [drawChartForUser] over the selected types is
    [computeAggregates] over the rows whose type is selected. *)
Theorem aggregateSelected_filter (rows : list row) (types : list string) (userId : string) :
  aggregateSelected parseFloat parseDate tzo rows types userId =
  computeAggregates parseFloat parseDate tzo
    (filter (fun r => typesSet_has types (purchase_type r)) rows) (Some userId).
Proof. apply agg_sel_loop_filter. Qed.

(** With every offered type selected (the default), the chart accumulates
    exactly the rows with a non-empty purchase type: rows without one,
    counted by [computeAggregates], are left out. *)
Theorem aggregateSelected_all_types (rows : list row) (userId : string) :
  aggregateSelected parseFloat parseDate tzo rows (purchaseTypes rows) userId =
  computeAggregates parseFloat parseDate tzo
    (filter (fun r => negb (falsy_str (purchase_type r))) rows) (Some userId).
Proof.
  unfold aggregateSelected. rewrite agg_sel_loop_filter. unfold computeAggregates.
  f_equal. apply filter_ext_in. intros r Hr. unfold typesSet_has.
  destruct (purchase_type r) as [[| a s] |] eqn:Ht; cbn [falsy_str negb]; [| | reflexivity].
  - destruct (existsb (String.eqb EmptyString) (purchaseTypes rows)) eqn:E; [| reflexivity].
    apply ExtraListFacts.existsb_eqb_In, purchaseTypes_In in E. destruct E as [E _].
    congruence.
  - apply ExtraListFacts.existsb_eqb_In, purchaseTypes_In.
    split; [discriminate | exists r; auto].
Qed.

End Select.
End ExtraSelectFacts.

Module ExtraTrimFacts.
Import CSV.
Open Scope string_scope.

Lemma string_of_list_app (l1 l2 : list ascii) :
  string_of_list_ascii (l1 ++ l2)%list = string_of_list_ascii l1 ++ string_of_list_ascii l2.
Proof. induction l1 as [| a l1 IH]; simpl; [reflexivity | rewrite IH; reflexivity]. Qed.

Lemma rev_string_cons (a : ascii) (s : string) :
  rev_string (String a s) = rev_string s ++ String a EmptyString.
Proof. unfold rev_string. simpl. rewrite string_of_list_app. reflexivity. Qed.

Lemma rev_string_involutive (s : string) : rev_string (rev_string s) = s.
Proof.
  unfold rev_string. rewrite list_ascii_of_string_of_list_ascii, rev_involutive.
  apply string_of_list_ascii_of_string.
Qed.

Lemma trim_start_idem (s : string) : trim_start (trim_start s) = trim_start s.
Proof.
  induction s as [| a s IH]; simpl; [reflexivity |].
  destruct (is_ws a) eqn:E; [exact IH | simpl; rewrite E; reflexivity].
Qed.

Lemma trim_start_length (s : string) : (String.length (trim_start s) <= String.length s)%nat.
Proof.
  induction s as [| a s IH]; simpl; [lia |].
  destruct (is_ws a); simpl; lia.
Qed.

Lemma length_app_str (s t : string) : String.length (s ++ t) = (String.length s + String.length t)%nat.
Proof. induction s; simpl; auto. Qed.

(** If [x] does not end in white space, neither does [trim_start x]. *)
Lemma trim_start_keeps_end (x : string) :
  trim_start (rev_string x) = rev_string x ->
  trim_start (rev_string (trim_start x)) = rev_string (trim_start x).
Proof.
  induction x as [| a x IH]; intros H; simpl; [exact H |].
  destruct (is_ws a) eqn:Ea; [| exact H].
  apply IH. rewrite rev_string_cons in H.
  destruct (rev_string x) as [| b z] eqn:Ez.
  - simpl in H. rewrite Ea in H. discriminate.
  - simpl in H. simpl. destruct (is_ws b) eqn:Eb; [| reflexivity].
    exfalso. pose proof (trim_start_length (z ++ String a EmptyString)) as Hl.
    rewrite H in Hl. simpl in Hl. lia.
Qed.

Lemma trim_idem (s : string) : trim (trim s) = trim s.
Proof.
  unfold trim at 2 3.
  set (y := trim_start (rev_string (trim_start s))).
  assert (H1 : trim_start (rev_string y) = rev_string y).
  { unfold y. apply trim_start_keeps_end.
    rewrite rev_string_involutive. apply trim_start_idem. }
  unfold trim. rewrite H1, rev_string_involutive. unfold y. rewrite trim_start_idem.
  reflexivity.
Qed.

End ExtraTrimFacts.

Module ExtraRegionFacts.
Import Regional Regions ExtraTrimFacts.
Open Scope string_scope.

(** [stateToRegion] depends only on the trimmed name; names outside the
    table give "United States", except the names of [Object.prototype]
    members, for which [mapping[s]] is the inherited member and no region
    name is returned. *)
Theorem stateToRegion_trim (s : string) :
  stateToRegion (Some s) = stateToRegion (Some (CSV.trim s)) /\
  (JSMap.get String.eqb (CSV.trim s) region_mapping = None ->
   ~ In (CSV.trim s) object_prototype_members ->
   stateToRegion (Some s) = RegionName United_States) /\
  (In (CSV.trim s) object_prototype_members ->
   stateToRegion (Some s) = ProtoMember (CSV.trim s)).
Proof.
  assert (Hproto : forall p, In p object_prototype_members ->
                             JSMap.get String.eqb p region_mapping = None).
  { intros p Hp. repeat (destruct Hp as [<- | Hp]; [reflexivity |]). destruct Hp. }
  assert (Hlook : forall t, t <> EmptyString ->
                  stateToRegion (Some t) =
                  match mapping_lookup (CSV.trim t) with
                  | Some v => v | None => RegionName United_States end).
  { intros t Ht. destruct t; [congruence | reflexivity]. }
  assert (Hempty : mapping_lookup EmptyString = None) by reflexivity.
  assert (Heq : stateToRegion (Some s) = stateToRegion (Some (CSV.trim s))).
  { destruct s as [| a s']; [reflexivity |].
    rewrite Hlook by discriminate.
    destruct (CSV.trim (String a s')) as [| b t] eqn:Et.
    - rewrite Hempty. reflexivity.
    - rewrite Hlook by discriminate. rewrite <- Et, trim_idem. reflexivity. }
  split; [exact Heq |]. split.
  - intros Hget Hnp. rewrite Heq.
    destruct (CSV.trim s) as [| b t] eqn:Et; [reflexivity |].
    rewrite Hlook by discriminate. rewrite <- Et, trim_idem, Et.
    unfold mapping_lookup. rewrite Hget.
    destruct (existsb (String.eqb (String b t)) object_prototype_members) eqn:Ex;
      [| reflexivity].
    exfalso. apply Hnp. apply existsb_exists in Ex. destruct Ex as [p [Hp Hq]].
    apply String.eqb_eq in Hq. subst. exact Hp.
  - intros Hp. rewrite Heq.
    destruct (CSV.trim s) as [| b t] eqn:Et.
    + exfalso. repeat (destruct Hp as [Hp | Hp]; [discriminate Hp |]). destruct Hp.
    + rewrite Hlook by discriminate. rewrite <- Et, trim_idem, Et.
      unfold mapping_lookup. rewrite (Hproto _ Hp).
      assert (Hx : existsb (String.eqb (String b t)) object_prototype_members = true).
      { apply existsb_exists. exists (String b t). split; [exact Hp | apply String.eqb_refl]. }
      rewrite Hx. reflexivity.
Qed.

Lemma stateToRegion_trim_witness :
  CSV.trim " constructor " = "constructor" /\
  stateToRegion (Some " constructor ") = ProtoMember (CSV.trim " constructor ") /\
  stateToRegion (Some "Texas ") = stateToRegion (Some "Texas").
Proof.
  split; [reflexivity | split].
  - apply (proj2 (proj2 (stateToRegion_trim " constructor "))). vm_compute. auto 20.
  - apply (proj1 (stateToRegion_trim "Texas ")).
Defined.

End ExtraRegionFacts.

Module ExtraIncomeFacts.
Import Regions RegionIncome ExtraListFacts.

Section Income.
Variable toNumber : option string -> num.

Lemma rai_loop_seen_ext (region : region_result) (rows : list CSV.obj)
    (seen1 seen2 : list string) (s : num) (c : nat) :
  (forall x, In x seen1 <-> In x seen2) ->
  rai_loop toNumber region rows seen1 s c = rai_loop toNumber region rows seen2 s c.
Proof.
  revert seen1 seen2 s c. induction rows as [| r rs IH]; intros seen1 seen2 s c Hs;
    [reflexivity |].
  cbn [rai_loop].
  assert (Hb : existsb (String.eqb (id_string r)) seen1 =
               existsb (String.eqb (id_string r)) seen2).
  { destruct (existsb (String.eqb (id_string r)) seen1) eqn:E1,
      (existsb (String.eqb (id_string r)) seen2) eqn:E2; auto.
    - apply existsb_eqb_In, Hs, existsb_eqb_In in E1. congruence.
    - apply existsb_eqb_In, Hs, existsb_eqb_In in E2. congruence. }
  rewrite Hb. destruct (existsb (String.eqb (id_string r)) seen2); [apply IH; exact Hs |].
  assert (Hs' : forall x, In x (id_string r :: seen1) <-> In x (id_string r :: seen2))
    by (intros x; simpl; rewrite Hs; tauto).
  repeat match goal with
         | |- context [if ?b then _ else _] => destruct b
         end; apply IH; exact Hs'.
Qed.

Lemma rai_loop_new (region : region_result) (r : CSV.obj) (seen : list string) (s : num) (c : nat) :
  existsb (String.eqb (id_string r)) seen = false ->
  exists s' c', forall rest,
    rai_loop toNumber region (r :: rest) seen s c =
    rai_loop toNumber region rest (id_string r :: seen) s' c'.
Proof.
  intros E. cbn [rai_loop]. rewrite E.
  repeat match goal with
         | |- context [if ?b then _ else _] => destruct b
         end; eauto.
Qed.

Lemma rai_loop_app (region : region_result) (pre post : list CSV.obj) (seen : list string)
    (s : num) (c : nat) :
  rai_loop toNumber region (pre ++ post) seen s c =
  let '(s', c') := rai_loop toNumber region pre seen s c in
  rai_loop toNumber region post (rev (map id_string pre) ++ seen) s' c'.
Proof.
  revert seen s c. induction pre as [| r pre IH]; intros seen s c; [reflexivity |].
  rewrite <- app_comm_cons. cbn [map rev].
  destruct (existsb (String.eqb (id_string r)) seen) eqn:E.
  - cbn [rai_loop]. rewrite E, IH.
    destruct (rai_loop toNumber region pre seen s c) as [s' c'].
    apply rai_loop_seen_ext. intros x. rewrite !in_app_iff. simpl.
    apply existsb_eqb_In in E. intuition congruence.
  - destruct (rai_loop_new region r seen s c E) as [s1 [c1 Hr]].
    rewrite !Hr, IH. rewrite <- app_assoc. reflexivity.
Qed.

(** Only the first row of each id counts toward the regional average
    income: a later row with an id already seen changes nothing, wherever
    it appears and whatever its location or income. *)
Theorem computeRegionAverageWeeklyIncome_first_row_wins
    (rows_before rows_after : list CSV.obj) (r : CSV.obj) (region : region_result) :
  In (id_string r) (map id_string rows_before) ->
  computeRegionAverageWeeklyIncome toNumber (rows_before ++ r :: rows_after) region =
  computeRegionAverageWeeklyIncome toNumber (rows_before ++ rows_after) region.
Proof.
  intros Hin. unfold computeRegionAverageWeeklyIncome. rewrite !rai_loop_app.
  destruct (rai_loop toNumber region rows_before [] (Fin 0) O) as [s' c'].
  cbn [rai_loop].
  assert (E : existsb (String.eqb (id_string r)) (rev (map id_string rows_before) ++ []) = true).
  { apply existsb_eqb_In. rewrite app_nil_r, <- in_rev. exact Hin. }
  rewrite E. reflexivity.
Qed.

End Income.

Lemma first_row_wins_witness :
  RegionIncome.computeRegionAverageWeeklyIncome Builtins.parseFloat_dec
    ([ExtraSamples.income_tx] ++ ExtraSamples.income_tx_again :: [ExtraSamples.income_fl])
    (RegionName Regional.South) =
  RegionIncome.computeRegionAverageWeeklyIncome Builtins.parseFloat_dec
    ([ExtraSamples.income_tx] ++ [ExtraSamples.income_fl]) (RegionName Regional.South).
Proof.
  apply computeRegionAverageWeeklyIncome_first_row_wins. left. reflexivity.
Defined.

End ExtraIncomeFacts.

Module ExtraTableFacts.
Import Regional Expenditures.
Open Scope string_scope.

Lemma jsor_not_nan (a b : num) : isNaN b = false -> isNaN (jsor a b) = false.
Proof.
  intros Hb. unfold jsor. destruct (truthy a) eqn:E; [| exact Hb].
  destruct a; simpl in *; congruence.
Qed.

Lemma in_set_inv {V : Type} (k k' : string) (v v' : V) (m : list (string * V)) :
  In (k, v) (JSMap.set String.eqb k' v' m) -> In (k, v) m \/ v = v'.
Proof.
  induction m as [| [k0 v0] m IH]; simpl.
  - intros [H | []]. injection H as _ ->. right; reflexivity.
  - destruct (String.eqb k' k0); simpl.
    + intros [H | H]; [injection H as _ ->; right; reflexivity | left; right; exact H].
    + intros [H | H]; [left; left; exact H |].
      destruct (IH H) as [H' | H']; [left; right; exact H' | right; exact H'].
Qed.

Section Table.
Variable parseFloat : option string -> num.

Lemma fe_loop_forall (P : entry -> Prop) (idx : list (string * nat)) (lines : list string)
    (m : list (string * entry)) :
  (forall parts, P (mkEntry (cell parseFloat idx parts United_States)
                            (cell parseFloat idx parts Northeast)
                            (cell parseFloat idx parts Midwest)
                            (cell parseFloat idx parts South)
                            (cell parseFloat idx parts West))) ->
  (forall k e, In (k, e) m -> P e) ->
  forall k e, In (k, e) (fe_loop parseFloat idx lines m) -> P e.
Proof.
  intros Hnew. revert m. induction lines as [| l ls IH]; intros m Hm; simpl; [exact Hm |].
  destruct (negb _); [apply IH; exact Hm |].
  apply IH. intros k e Hin. apply in_set_inv in Hin. destruct Hin as [Hin | ->].
  - eapply Hm; eauto.
  - apply Hnew.
Qed.

(** No mean of the expenditure table is NaN: missing, empty and
    non-numeric cells all become 0. *)
Theorem parseFilteredExpenditures_no_nan (text : string) (k : string) (e : entry) (reg : region) :
  In (k, e) (parseFilteredExpenditures parseFloat text) -> isNaN (entry_get e reg) = false.
Proof.
  unfold parseFilteredExpenditures.
  destruct (filter CSV.nonempty (CSV.split_lines text)) as [| h rest]; [intros [] |].
  revert k e. apply (fe_loop_forall (fun e => isNaN (entry_get e reg) = false)).
  - intros parts. destruct reg; simpl; unfold cell; apply jsor_not_nan; reflexivity.
  - intros k e [].
Qed.

Lemma header_index_absent (c : string) (header : list string) :
  ~ In c header -> JSMap.get String.eqb c (header_index header) = None.
Proof.
  intros Hn. unfold header_index.
  transitivity (JSMap.get String.eqb c (@nil (string * nat))); [| reflexivity].
  generalize (@nil (string * nat)) as idx. generalize O as i.
  induction header as [| h hs IH]; intros i idx; [reflexivity |].
  simpl. rewrite IH by (intros H; apply Hn; right; exact H).
  apply (MapFacts.get_set_other String.eqb String.eqb_eq).
  intros ->. apply Hn. left. reflexivity.
Qed.

(** A region whose column is absent from the header has mean 0 in every
    entry (given [parseFloat('0')] is 0). *)
Theorem parseFilteredExpenditures_missing_column
    (text : string) (header : list string) (rows : list CSV.obj) (reg : region)
    (k : string) (e : entry) :
  truthy (parseFloat (Some "0")) = false ->
  CSV.parseCSV text = inr (header, rows) ->
  ~ In (col_name reg) header ->
  In (k, e) (parseFilteredExpenditures parseFloat text) ->
  entry_get e reg = Fin 0.
Proof.
  intros H0 Hcsv Hcol. unfold CSV.parseCSV in Hcsv. unfold parseFilteredExpenditures.
  destruct (filter CSV.nonempty (CSV.split_lines text)) as [| h rest]; [discriminate |].
  injection Hcsv as Hh _. rewrite Hh.
  assert (Hcell : forall parts, cell parseFloat (header_index header) parts reg = Fin 0).
  { intros parts. unfold cell. rewrite header_index_absent by exact Hcol.
    unfold jsor. rewrite H0. reflexivity. }
  revert k e. apply (fe_loop_forall (fun e => entry_get e reg = Fin 0)).
  - intros parts. destruct reg; simpl; apply Hcell.
  - intros k e [].
Qed.

End Table.

Lemma no_nan_witness :
  isNaN (entry_get ExtraSamples.milk_entry South) = false.
Proof.
  apply (parseFilteredExpenditures_no_nan Builtins.parseFloat_dec ExtraSamples.fe_text "Milk").
  vm_compute. left. reflexivity.
Defined.

Lemma missing_column_witness :
  entry_get ExtraSamples.milk_entry West = Fin 0.
Proof.
  apply (parseFilteredExpenditures_missing_column Builtins.parseFloat_dec ExtraSamples.fe_text
           ExtraSamples.fe_header ExtraSamples.fe_objs West "Milk").
  - reflexivity.
  - vm_compute. reflexivity.
  - vm_compute. intuition discriminate.
  - vm_compute. left. reflexivity.
Defined.

End ExtraTableFacts.

Module ExtraReferenceFacts.
Import Regional ExtraTableFacts.
Open Scope string_scope.

Lemma find_key_in (target k : string) (keys : list string) :
  find_key target keys = Some k -> In k keys.
Proof.
  induction keys as [| key ks IH]; simpl; [discriminate |].
  destruct (_ || _ || _); [intros H; injection H as <-; left; reflexivity |].
  intros H. right. apply IH, H.
Qed.


Lemma ref_loop_count (fe : list (string * entry)) (reg : region) (types : list string)
    (total : num) (count : nat) (keys : list string) :
  exists total' keys',
    ref_loop fe reg types total count keys =
    (total', (count + List.length (filter (fun t => match matchCategory t fe with
                                             | Some (String _ _) => true | _ => false end) types))%nat, keys').
Proof.
  revert total count keys. induction types as [| t ts IH]; intros total count keys.
  - simpl. rewrite Nat.add_0_r. eauto.
  - simpl.
    destruct (matchCategory t fe) as [[| a s] |] eqn:Em.
    + apply IH.
    + assert (Hk : In (String a s) (map fst fe)).
      { eapply find_key_in. exact Em. }
      apply (MapFacts.in_keys_get String.eqb String.eqb_eq) in Hk. destruct Hk as [e He].
      rewrite He. rewrite jsor_not_nan by (apply jsor_not_nan; reflexivity).
      destruct (IH (add total (jsor (entry_get e reg) (jsor (us_mean e) (Fin 0)))) (S count)
                   (keys ++ [String a s])%list) as [t' [k' H]].
      rewrite H. simpl List.length. rewrite Nat.add_succ_r. eauto.
    + apply IH.
Qed.

(** No reference line is drawn exactly when no selected type matches a
    non-empty key of the table: the [isNaN] test on the weekly value never
    skips a match. *)
Theorem regionalReference_none_iff (fe : list (string * entry)) (reg : region)
    (types : list string) :
  regionalReference fe reg types = None <->
  forall t, In t types -> matchCategory t fe = None \/ matchCategory t fe = Some "".
Proof.
  unfold regionalReference.
  destruct (ref_loop_count fe reg types (Fin 0) O []) as [total [keys ->]].
  rewrite Nat.add_0_l.
  set (f := fun t => match matchCategory t fe with
                     | Some (String _ _) => true | _ => false end).
  assert (Hf : forall t, f t = false <-> matchCategory t fe = None \/ matchCategory t fe = Some "").
  { intros t. unfold f. destruct (matchCategory t fe) as [[| a s] |];
      split; intros H; try discriminate; auto; destruct H; discriminate. }
  split.
  - intros Hn t Ht. apply Hf.
    destruct (f t) eqn:E; [| reflexivity]. exfalso.
    assert (Hin : In t (filter f types)) by (apply filter_In; auto).
    destruct (filter f types) as [| x xs]; [destruct Hin |]. simpl in Hn. discriminate.
  - intros Hall. destruct (filter f types) as [| x xs] eqn:E; [reflexivity |].
    exfalso. assert (Hx : In x (filter f types)) by (rewrite E; left; reflexivity).
    apply filter_In in Hx. destruct Hx as [Hx Hfx].
    specialize (Hall x Hx). apply Hf in Hall. congruence.
Qed.

End ExtraReferenceFacts.

Module ExtraCSVFacts.
Import CSV.
Open Scope string_scope.


Lemma get_absent {V : Type} (k : string) (m : list (string * V)) :
  ~ In k (map fst m) -> JSMap.get String.eqb k m = None.
Proof.
  induction m as [| [k0 v0] m IH]; simpl; intros Hn; [reflexivity |].
  destruct (String.eqb_spec k k0) as [-> | Hne]; [exfalso; apply Hn; left; reflexivity |].
  apply IH. tauto.
Qed.



(** Line splitting. *)
Lemma string_app_assoc (a b c : string) : (a ++ b) ++ c = a ++ (b ++ c).
Proof. induction a as [| x a IH]; simpl; [reflexivity | rewrite IH; reflexivity]. Qed.

Lemma list_ascii_app (a b : string) :
  list_ascii_of_string (a ++ b) = (list_ascii_of_string a ++ list_ascii_of_string b)%list.
Proof. induction a as [| x a IH]; simpl; [reflexivity | rewrite IH; reflexivity]. Qed.

Lemma split_on_sep (c : ascii) (l rest : string) :
  ~ In c (list_ascii_of_string l) -> split_on c (l ++ String c rest) = l :: split_on c rest.
Proof.
  induction l as [| a l IH]; intros Hn; simpl.
  - rewrite Ascii.eqb_refl. reflexivity.
  - destruct (Ascii.eqb_spec a c) as [-> | Hne]; [exfalso; apply Hn; left; reflexivity |].
    rewrite IH by (intros H; apply Hn; right; exact H). reflexivity.
Qed.

Lemma split_on_none (c : ascii) (l : string) :
  ~ In c (list_ascii_of_string l) -> split_on c l = [l].
Proof.
  induction l as [| a l IH]; intros Hn; simpl; [reflexivity |].
  destruct (Ascii.eqb_spec a c) as [-> | Hne]; [exfalso; apply Hn; left; reflexivity |].
  rewrite IH by (intros H; apply Hn; right; exact H). reflexivity.
Qed.

Lemma split_on_not_nil (c : ascii) (s : string) : split_on c s <> [].
Proof.
  induction s as [| a s IH]; simpl; [discriminate |].
  destruct (Ascii.eqb a c); [discriminate |].
  destruct (split_on c s); [contradiction | discriminate].
Qed.

Lemma split_lines_sep (l rest : string) :
  ~ In lf (list_ascii_of_string l) ->
  split_lines (l ++ String lf rest) = drop_final_cr l :: split_lines rest.
Proof.
  intros Hn. unfold split_lines. rewrite split_on_sep by exact Hn.
  pose proof (split_on_not_nil lf rest) as Hne.
  destruct (split_on lf rest) as [| p ps]; [contradiction | reflexivity].
Qed.

Lemma split_lines_none (l : string) :
  ~ In lf (list_ascii_of_string l) -> split_lines l = [l].
Proof. intros Hn. unfold split_lines. rewrite split_on_none by exact Hn. reflexivity. Qed.

Lemma drop_final_cr_app (l : string) : drop_final_cr (l ++ String cr EmptyString) = l.
Proof.
  induction l as [| a l IH]; [reflexivity |].
  destruct l as [| b l']; [reflexivity |].
  cbn [append drop_final_cr] in IH |- *. rewrite IH. reflexivity.
Qed.

Lemma drop_final_cr_keep (l : string) :
  (forall p, l <> p ++ String cr EmptyString) -> drop_final_cr l = l.
Proof.
  induction l as [| a l IH]; intros Hn; simpl; [reflexivity |].
  destruct l as [| b l'].
  - destruct (Ascii.eqb_spec a cr) as [-> | Hne]; [| reflexivity].
    exfalso. apply (Hn EmptyString). reflexivity.
  - rewrite IH; [reflexivity |].
    intros p Hp. apply (Hn (String a p)). rewrite Hp. reflexivity.
Qed.

Lemma split_lines_join_gen (ls : list string) :
  ls <> [] ->
  (forall l, In l ls -> ~ In lf (list_ascii_of_string l)) ->
  split_lines (join (String cr (String lf EmptyString)) ls) = ls /\
  ((forall l p, In l ls -> l <> p ++ String cr EmptyString) ->
   split_lines (join (String lf EmptyString) ls) = ls).
Proof.
  intros Hne Hlf. induction ls as [| l ls IH]; [congruence |].
  destruct ls as [| l2 ls'].
  - simpl. rewrite split_lines_none by (apply Hlf; left; reflexivity). split; auto.
  - assert (Hl : ~ In lf (list_ascii_of_string l)) by (apply Hlf; left; reflexivity).
    destruct IH as [IH1 IH2]; [discriminate | intros l' H; apply Hlf; right; exact H |].
    change (join ?sep (l :: l2 :: ls')) with (l ++ sep ++ join sep (l2 :: ls')).
    set (J1 := join (String cr (String lf EmptyString)) (l2 :: ls')) in *.
    set (J2 := join (String lf EmptyString) (l2 :: ls')) in *.
    change (String cr (String lf EmptyString) ++ J1) with (String cr (String lf J1)).
    change (String lf EmptyString ++ J2) with (String lf J2).
    split.
    + replace (l ++ String cr (String lf J1))
        with ((l ++ String cr EmptyString) ++ String lf J1)
        by (rewrite string_app_assoc; reflexivity).
      rewrite split_lines_sep, drop_final_cr_app, IH1; [reflexivity |].
      rewrite list_ascii_app. intros H. apply in_app_or in H.
      destruct H as [H | [H | []]]; [contradiction | discriminate].
    + intros Hcr.
      rewrite split_lines_sep by exact Hl.
      rewrite drop_final_cr_keep by (intros p; apply Hcr; left; reflexivity).
      rewrite IH2; [reflexivity |].
      intros l' p H. apply Hcr. right. exact H.
Qed.

Lemma ends_with_cr_get (p : string) :
  String.get (String.length (p ++ String cr EmptyString) - 1) (p ++ String cr EmptyString) =
  Some cr.
Proof.
  assert (Hl : String.length (p ++ String cr EmptyString) = S (String.length p)).
  { induction p as [| a p IH]; [reflexivity | cbn [append String.length]; rewrite IH; reflexivity]. }
  rewrite Hl, Nat.sub_succ, Nat.sub_0_r. clear Hl.
  induction p as [| a p IH]; [reflexivity | exact IH].
Qed.

(** [text.split(/\r?\n/)] recovers the lines of a text written with CRLF
    line ends, and with LF line ends when no line ends in CR. *)
Theorem split_lines_join (ls : list string) :
  ls <> [] ->
  (forall l, In l ls -> ~ In lf (list_ascii_of_string l)) ->
  split_lines (join (String cr (String lf EmptyString)) ls) = ls /\
  ((forall l p, In l ls -> l <> p ++ String cr EmptyString) ->
   split_lines (join (String lf EmptyString) ls) = ls).
Proof. apply split_lines_join_gen. Qed.

(** [parseCSV] and [parseFilteredExpenditures] give the same result for a
    file with CRLF line ends as for the same lines with LF ends. *)
Theorem parsers_line_endings (parseFloat : option string -> num) (ls : list string) :
  ls <> [] ->
  (forall l, In l ls -> ~ In lf (list_ascii_of_string l)) ->
  (forall l p, In l ls -> l <> p ++ String cr EmptyString) ->
  parseCSV (join (String cr (String lf EmptyString)) ls) =
    parseCSV (join (String lf EmptyString) ls) /\
  Expenditures.parseFilteredExpenditures parseFloat (join (String cr (String lf EmptyString)) ls) =
    Expenditures.parseFilteredExpenditures parseFloat (join (String lf EmptyString) ls).
Proof.
  intros Hne Hlf Hcr.
  destruct (split_lines_join_gen ls Hne Hlf) as [H1 H2].
  unfold parseCSV, Expenditures.parseFilteredExpenditures.
  rewrite H1, (H2 Hcr). split; reflexivity.
Qed.

Lemma sample_lines_no_lf (l : string) :
  In l ExtraSamples.sample_lines -> ~ In lf (list_ascii_of_string l).
Proof.
  intros Hl. repeat (destruct Hl as [<- | Hl]; [vm_compute; intuition discriminate |]).
  destruct Hl.
Qed.

Lemma sample_lines_no_cr_end (l p : string) :
  In l ExtraSamples.sample_lines -> l <> p ++ String cr EmptyString.
Proof.
  intros Hl Heq. pose proof (ends_with_cr_get p) as Hg. rewrite <- Heq in Hg.
  repeat (destruct Hl as [<- | Hl]; [vm_compute in Hg; discriminate Hg |]). destruct Hl.
Qed.


Lemma split_lines_join_witness :
  split_lines (join ExtraSamples.crlf_sep ExtraSamples.sample_lines) = ExtraSamples.sample_lines /\
  split_lines (join ExtraSamples.lf_sep ExtraSamples.sample_lines) = ExtraSamples.sample_lines.
Proof.
  destruct (split_lines_join ExtraSamples.sample_lines ltac:(discriminate) sample_lines_no_lf)
    as [H1 H2].
  split; [exact H1 | apply H2, sample_lines_no_cr_end].
Defined.

Lemma parsers_line_endings_witness :
  parseCSV (join ExtraSamples.crlf_sep ExtraSamples.sample_lines) = parseCSV ExtraSamples.sample_csv.
Proof.
  apply (parsers_line_endings Builtins.parseFloat_dec ExtraSamples.sample_lines).
  - discriminate.
  - apply sample_lines_no_lf.
  - apply sample_lines_no_cr_end.
Defined.

End ExtraCSVFacts.
